(** * pkg/env: the test environment of the e2e framework

    A shallow embedding of [src/pkg/env/env.go].  Environments are objects
    reached through pointers ([*testEnv]): they live in a store, the
    registration methods update them in place and return the receiver, and
    [Test] and [Run] assign to the receiver's [ctx] field as they go.  The
    user-supplied functions (environment functions and feature steps) act on
    a world [W] of which the engine itself reads nothing but the two filters
    of its configuration; what the engine asks of the test harness and of
    the logger is recorded in a journal. *)

From stdpp Require Import base option list strings gmap.
From Stdlib Require Import ZArith.

Set Default Proof Using "Type".
Local Open Scope string_scope.

(** ** Outcomes of a Go call *)

(** A call returns, or ends the goroutine it runs on ([runtime.Goexit],
    which is how [t.FailNow] and [t.SkipNow] stop a test function), or ends
    the process ([os.Exit], through [log.Fatal]), or panics. *)
Inductive outcome (A : Type) : Type :=
| Done (a : A)
| Goexit
| OsExit (code : Z)
| Panic (msg : string).
Arguments Done {A} a.
Arguments Goexit {A}.
Arguments OsExit {A} code.
Arguments Panic {A} msg.

(** A computation over a state [S]: the state is kept whatever the outcome. *)
Definition exec (S A : Type) : Type := S -> outcome A * S.

Definition ret {S A : Type} (a : A) : exec S A := fun s => (Done a, s).

Definition bind {S A B : Type} (m : exec S A) (k : A -> exec S B) : exec S B :=
  fun s =>
    match m s with
    | (Done a, s') => k a s'
    | (Goexit, s') => (Goexit, s')
    | (OsExit n, s') => (OsExit n, s')
    | (Panic msg, s') => (Panic msg, s')
    end.

Notation "'let*' x ':=' m 'in' k" := (bind m (fun x => k))
  (at level 10, x name, m at level 100, k at level 200).

(** [for _, x := range l { body }] *)
Fixpoint forEach {S A : Type} (l : list A) (body : A -> exec S unit) : exec S unit :=
  match l with
  | [] => ret tt
  | x :: rest => let* _ := body x in forEach rest body
  end.

Definition panic {S A : Type} (msg : string) : exec S A := fun s => (Panic msg, s).

(** The message of the run-time panic raised by a field access through a nil
    pointer. *)
Definition nilDereference : string :=
  "runtime error: invalid memory address or nil pointer dereference".

(** ** Names shared with the harness *)

(** [*regexp.Regexp], as far as the engine uses it: its [MatchString]. *)
Record regexp : Type := { MatchString : string -> bool }.

(** [*testing.T]: a reporting scope, named by the path of sub-test names that
    leads to it. *)
Definition T : Type := list string.

(** [actionRole]: the role an action was registered under. *)
Inductive actionRole : Type := roleSetup | roleBefore | roleAfter | roleFinish.

Global Instance actionRole_eq_dec : EqDecision actionRole.
Proof. solve_decision. Defined.

(** [types.Level]. *)
Inductive Level : Type := LevelSetup | LevelAssess | LevelTeardown.

Global Instance Level_eq_dec : EqDecision Level.
Proof. solve_decision. Defined.

(** Pointers to environments. *)
Definition loc : Type := positive.

(** The double quote of the skip messages. *)
Definition dquote : string := String (Ascii.ascii_of_nat 34) EmptyString.

(** ** What the engine is given

    The world [W] of the user's functions, the values [CtxVal] a
    [context.Context] can take and [context.Background ()].  Package
    [envconf] is not part of the embedded source: a [*envconf.Config] is a
    pointer of type [Config] into the world, [envconf.New] allocates one,
    and the two filters are read through it. *)
Class Harness : Type := {
  W : Type;
  CtxVal : Type;
  Background : CtxVal;
  Config : Type;
  envconf_New : W -> Config * W;
  FeatureRegex : Config -> W -> option regexp;
  AssessmentRegex : Config -> W -> option regexp
}.

Section Env.

Context `{Harness}.

(** A [context.Context] is an interface value: [None] is [nil]. *)
Definition Ctx : Type := option CtxVal.

(** An [error] is an interface value, known to the engine by its message:
    [None] is [nil]. *)
Definition error : Type := option string.

(** [types.EnvFunc]: [func(context.Context, *envconf.Config)
    (context.Context, error)]; it may change the world. *)
Definition Func : Type := Ctx -> option Config -> W -> (Ctx * error) * W.

(** [types.StepFunc]: [func(context.Context, *testing.T, *envconf.Config)
    context.Context].  A step is taken by what its signature says: it is
    given the context, its scope and the configuration, it may change the
    world, and it returns a context. *)
Definition StepFunc : Type := Ctx -> T -> option Config -> W -> Ctx * W.

Record action : Type := { role : actionRole; funcs : list Func }.

Record Step : Type := { Step_Name : string; Step_Level : Level; Step_Func : StepFunc }.

Record Feature : Type := { Feature_Name : string; Feature_Steps : list Step }.

(** [cfg] is a pointer, [None] when nil.  The slice [actions] is held by its
    environment alone (WithContext copies it into a new array and the
    retrievals build new slices), so it is the list of its elements. *)
Record testEnv : Type := { ctx : Ctx; cfg : option Config; actions : list action }.

(** What the engine asks of its collaborators, in the order it asks. *)
Inductive event : Type :=
| EvRunAction (a : action) (c : Ctx)        (* a.run(c, cfg) is called *)
| EvSubtest (t : T)                         (* t.Run opens the sub-scope t *)
| EvStep (t : T) (s : Step) (c : Ctx)       (* s.Func()(c, t, cfg) is called *)
| EvSkipf (t : T) (msg : string)            (* t.Skipf *)
| EvFatalf (t : T) (msg : string)           (* t.Fatalf *)
| EvLogFatal (msg : string)                 (* log.Fatal *)
| EvLogPrintln (msg : string)               (* log.Println *)
| EvMRun.                                   (* m.Run() *)

Record machine : Type := { envs : gmap loc testEnv; world : W; journal : list event }.

(** [*testing.M]: running the package's tests returns an exit code and may
    change anything the tests can reach. *)
Record testingM : Type := { mRun : machine -> Z * machine }.

(** ** Primitive steps *)

Definition setEnvs (h : gmap loc testEnv) (s : machine) : machine :=
  {| envs := h; world := world s; journal := journal s |}.

Definition setWorld (w : W) (s : machine) : machine :=
  {| envs := envs s; world := w; journal := journal s |}.

Definition logged (evs : list event) (s : machine) : machine :=
  {| envs := envs s; world := world s; journal := journal s ++ evs |}.

(** [*e] *)
Definition deref (e : loc) : exec machine testEnv :=
  fun s =>
    match envs s !! e with
    | Some env => (Done env, s)
    | None => (Panic nilDereference, s)
    end.

(** [*e = env] *)
Definition assign (e : loc) (env : testEnv) : exec machine unit :=
  fun s => (Done tt, setEnvs (<[e := env]> (envs s)) s).

(** [&testEnv{...}] *)
Definition alloc (env : testEnv) : exec machine loc :=
  fun s =>
    let e := fresh (dom (envs s)) in
    (Done e, setEnvs (<[e := env]> (envs s)) s).

Definition emit (ev : event) : exec machine unit :=
  fun s => (Done tt, logged [ev] s).

(** A call into the user's code. *)
Definition call {A : Type} (f : W -> A * W) : exec machine A :=
  fun s => let '(a, w) := f (world s) in (Done a, setWorld w s).

(** [e.ctx = c] *)
Definition setCtx (e : loc) (c : Ctx) : exec machine unit :=
  let* env := deref e in
  assign e {| ctx := c; cfg := cfg env; actions := actions env |}.

(** [e.actions = append(e.actions, a)] *)
Definition appendAction (e : loc) (a : action) : exec machine unit :=
  let* env := deref e in
  assign e {| ctx := ctx env; cfg := cfg env; actions := actions env ++ [a] |}.

(** ** Constructors *)

Definition newTestEnv : exec machine loc :=
  let* c := call envconf_New in
  alloc {| ctx := Some Background; cfg := Some c; actions := [] |}.

Definition New : exec machine loc := newTestEnv.

Definition NewWithConfig (c : option Config) : exec machine loc :=
  let* env := newTestEnv in
  let* v := deref env in
  let* _ := assign env {| ctx := ctx v; cfg := c; actions := actions v |} in
  ret env.

(** The result is the environment, or the message of the error. *)
Definition NewWithContext (c : Ctx) (cf : option Config) : exec machine (loc + string) :=
  match c with
  | None => ret (inr "context is nil")
  | Some _ =>
      match cf with
      | None => ret (inr "environment config is nil")
      | Some _ =>
          let* env := alloc {| ctx := c; cfg := cf; actions := [] |} in
          ret (inl env)
      end
  end.

Definition WithContext (e : loc) (c : Ctx) : exec machine loc :=
  match c with
  | None => panic "nil context"
  | Some _ =>
      let* v := deref e in
      let* env := alloc {| ctx := c; cfg := cfg v; actions := [] |} in
      let* w := deref env in
      let* _ := assign env {| ctx := ctx w; cfg := cfg w; actions := actions w ++ actions v |} in
      ret env
  end.

(** ** Registration *)

Definition Setup (e : loc) (fs : list Func) : exec machine loc :=
  if decide (length fs = 0) then ret e
  else let* _ := appendAction e {| role := roleSetup; funcs := fs |} in ret e.

Definition BeforeTest (e : loc) (fs : list Func) : exec machine loc :=
  if decide (length fs = 0) then ret e
  else let* _ := appendAction e {| role := roleBefore; funcs := fs |} in ret e.

Definition AfterTest (e : loc) (fs : list Func) : exec machine loc :=
  if decide (length fs = 0) then ret e
  else let* _ := appendAction e {| role := roleAfter; funcs := fs |} in ret e.

Definition Finish (e : loc) (fs : list Func) : exec machine loc :=
  if decide (length fs = 0) then ret e
  else let* _ := appendAction e {| role := roleFinish; funcs := fs |} in ret e.

(** ** Retrieval *)

(** The loop of [getActionsByRole] over a slice of actions. *)
Fixpoint collect (r : actionRole) (result : list action) (l : list action) : list action :=
  match l with
  | [] => result
  | a :: rest =>
      if decide (role a = r) then collect r (result ++ [a]) rest
      else collect r result rest
  end.

Definition getActionsByRole (e : loc) (r : actionRole) : exec machine (list action) :=
  let* env := deref e in
  match actions env with
  | [] => ret []
  | _ => ret (collect r [] (actions env))
  end.

Definition GetSetupActions (e : loc) : exec machine (list action) := getActionsByRole e roleSetup.
Definition GetBeforeActions (e : loc) : exec machine (list action) := getActionsByRole e roleBefore.
Definition GetAfterActions (e : loc) : exec machine (list action) := getActionsByRole e roleAfter.
Definition GetFinishActions (e : loc) : exec machine (list action) := getActionsByRole e roleFinish.

(** ** Running an action *)

(** Modelled from the spec: [action.run] (file action.go is not part of the
    embedded source).  Section 4.2: the functions of the action run in
    order, each on the context the one before it returned; the first one
    that fails ends the run, and its error is returned together with the
    last context that was produced successfully. *)
Fixpoint runFuncs (fs : list Func) (c : Ctx) (cf : option Config) (w : W) : (Ctx * error) * W :=
  match fs with
  | [] => ((c, None), w)
  | f :: rest =>
      match f c cf w with
      | ((c', None), w') => runFuncs rest c' cf w'
      | ((_, Some err), w') => ((c, Some err), w')
      end
  end.

Definition run (a : action) (c : Ctx) (cf : option Config) : W -> (Ctx * error) * W :=
  runFuncs (funcs a) c cf.

Definition callRun (a : action) (c : Ctx) (cf : option Config) : exec machine (Ctx * error) :=
  let* _ := emit (EvRunAction a c) in
  call (run a c cf).

(** The statement shared by the four loops over actions:
    [if e.ctx, err = a.run(e.ctx, e.cfg); err != nil { onError(err) }]. *)
Definition runInto (e : loc) (onError : string -> exec machine unit) (a : action) : exec machine unit :=
  let* env := deref e in
  let* r := callRun a (ctx env) (cfg env) in
  let* _ := setCtx e r.1 in
  match r.2 with
  | Some err => onError err
  | None => ret tt
  end.

(** ** The harness and the logger *)

(** [t.Fatalf]: the failure is reported against [t] and the goroutine ends. *)
Definition T_Fatalf (t : T) (msg : string) : exec machine unit :=
  let* _ := emit (EvFatalf t msg) in
  fun s => (Goexit, s).

(** [t.Skipf]: the skip is reported against [t] and the goroutine ends. *)
Definition T_Skipf (t : T) (msg : string) : exec machine unit :=
  let* _ := emit (EvSkipf t msg) in
  fun s => (Goexit, s).

(** [log.Fatal]: the message is printed and the process exits with status 1. *)
Definition log_Fatal (msg : string) : exec machine unit :=
  let* _ := emit (EvLogFatal msg) in
  fun s => (OsExit 1, s).

Definition log_Println (msg : string) : exec machine unit := emit (EvLogPrintln msg).

Definition M_Run (m : testingM) : exec machine Z :=
  let* _ := emit EvMRun in
  fun s => let '(code, s') := mRun m s in (Done code, s').

(** ** Feature execution *)

(** Modelled from the spec: [features.GetStepsByLevel] (package features is
    not part of the embedded source).  Sections 3 and 4.6: the steps of a
    feature are partitioned by level, and within a level they keep the order
    they have in the feature's step list. *)
Definition GetStepsByLevel (steps : list Step) (l : Level) : list Step :=
  filter (fun s => Step_Level s = l) steps.

(** Inside [execFeature] the closures share the variable [ctx] of the
    enclosing call: a frame is that variable and the machine. *)
Definition frame : Type := Ctx * machine.

Definition lift {A : Type} (m : exec machine A) : exec frame A :=
  fun fr => match m fr.2 with (o, s') => (o, (fr.1, s')) end.

Definition getVar : exec frame Ctx := fun fr => (Done fr.1, fr).

Definition setVar (c : Ctx) : exec frame unit := fun fr => (Done tt, (c, fr.2)).

(** [t.Run(name, body)]: the sub-scope is opened and the body runs in it, on
    a goroutine of its own, while the caller waits; a body that has left
    through [runtime.Goexit] has ended like one that returned. *)
Definition T_Run (t : T) (name : string) (body : T -> exec frame unit) : exec frame unit :=
  let* _ := lift (emit (EvSubtest (t ++ [name])%list)) in
  fun fr =>
    match body (t ++ [name])%list fr with
    | (Goexit, fr') => (Done tt, fr')
    | r => r
    end.

(** [get] is one of the two accessors of the configuration: the filter is
    read through the pointer [cf]. *)
Definition readFilter (get : Config -> W -> option regexp) (cf : option Config) :
    exec machine (option regexp) :=
  match cf with
  | None => panic nilDereference
  | Some p => fun s => (Done (get p (world s)), s)
  end.

(** [e.cfg.X() != nil && !e.cfg.X().MatchString(name)] *)
Definition notMatched (get : Config -> W -> option regexp) (e : loc) (name : string) :
    exec machine bool :=
  let* env := deref e in
  let* r := readFilter get (cfg env) in
  match r with
  | None => ret false
  | Some _ =>
      let* env' := deref e in
      let* r' := readFilter get (cfg env') in
      match r' with
      | None => panic nilDereference
      | Some re => ret (negb (MatchString re name))
      end
  end.

(** [ctx = s.Func()(ctx, t, e.cfg)] *)
Definition callStep (e : loc) (t : T) (s : Step) : exec frame unit :=
  let* c := getVar in
  let* env := lift (deref e) in
  let* _ := lift (emit (EvStep t s c)) in
  let* c' := lift (call (Step_Func s c t (cfg env))) in
  setVar c'.

Definition skipFeatureMsg (name : string) : string :=
  "Skipping feature " ++ dquote ++ name ++ dquote ++ ": name not matched".

Definition skipAssessmentMsg (name : string) : string :=
  "Skipping assessment " ++ dquote ++ name ++ dquote ++ ": name not matched".

Definition execFeature (e : loc) (c : Ctx) (t : T) (f : Feature) : exec machine Ctx :=
  let featName := Feature_Name f in
  let subtest : exec frame unit :=
    T_Run t featName (fun t =>
      let* skip := lift (notMatched FeatureRegex e featName) in
      let* _ := (if skip : bool then lift (T_Skipf t (skipFeatureMsg featName)) else ret tt) in
      let setups := GetStepsByLevel (Feature_Steps f) LevelSetup in
      let* _ := forEach setups (fun setup => callStep e t setup) in
      let assessments := GetStepsByLevel (Feature_Steps f) LevelAssess in
      let* _ := forEach assessments (fun assess =>
        T_Run t (Step_Name assess) (fun t =>
          let* skip := lift (notMatched AssessmentRegex e (Step_Name assess)) in
          let* _ := (if skip : bool
                     then lift (T_Skipf t (skipAssessmentMsg (Step_Name assess)))
                     else ret tt) in
          callStep e t assess)) in
      let teardowns := GetStepsByLevel (Feature_Steps f) LevelTeardown in
      forEach teardowns (fun teardown => callStep e t teardown)) in
  fun s =>
    match subtest (c, s) with
    | (Done _, fr) => (Done fr.1, fr.2)
    | (Goexit, fr) => (Goexit, fr.2)
    | (OsExit n, fr) => (OsExit n, fr.2)
    | (Panic msg, fr) => (Panic msg, fr.2)
    end.

(** ** Test and Run *)

Definition Test (e : loc) (t : T) (feature : Feature) : exec machine unit :=
  let* env := deref e in
  match ctx env with
  | None => panic "context not set"
  | Some _ =>
      let* befores := GetBeforeActions e in
      let* _ := forEach befores (runInto e (fun err =>
        T_Fatalf t ("BeforeTest failure: " ++ Feature_Name feature ++ ": " ++ err))) in
      let* env1 := deref e in
      let* c := execFeature e (ctx env1) t feature in
      let* _ := setCtx e c in
      let* afters := GetAfterActions e in
      forEach afters (runInto e (fun err =>
        T_Fatalf t ("AfterTest failure: " ++ Feature_Name feature ++ ": " ++ err)))
  end.

Definition Run (e : loc) (m : testingM) : exec machine Z :=
  let* env := deref e in
  match ctx env with
  | None => panic "context not set"
  | Some _ =>
      let* setups := GetSetupActions e in
      let* _ := forEach setups (runInto e log_Fatal) in
      let* exitCode := M_Run m in
      let* finishes := GetFinishActions e in
      let* _ := forEach finishes (runInto e log_Println) in
      ret exitCode
  end.

End Env.

(** ** The vocabulary of the statements *)

Section Vocabulary.

Context `{Harness}.

(** The actions of a role among [l], in the order of [l]. *)
Definition byRole (r : actionRole) (l : list action) : list action :=
  filter (fun a => role a = r) l.

(** The registration method and the retrieval method of a role. *)
Definition register (r : actionRole) : loc -> list Func -> exec machine loc :=
  match r with
  | roleSetup => Setup
  | roleBefore => BeforeTest
  | roleAfter => AfterTest
  | roleFinish => Finish
  end.

Definition retrieve (r : actionRole) : loc -> exec machine (list action) :=
  match r with
  | roleSetup => GetSetupActions
  | roleBefore => GetBeforeActions
  | roleAfter => GetAfterActions
  | roleFinish => GetFinishActions
  end.

Definition withCtx (c : Ctx) (env : testEnv) : testEnv :=
  {| ctx := c; cfg := cfg env; actions := actions env |}.

Definition withAction (a : action) (env : testEnv) : testEnv :=
  {| ctx := ctx env; cfg := cfg env; actions := actions env ++ [a] |}.

(** The machine [s] once environment [e], which held [env], has had its
    context set to [c], the world has become [w] and [evs] has been
    journalled. *)
Definition settled (e : loc) (env : testEnv) (c : Ctx) (w : W) (evs : list event)
    (s : machine) : machine :=
  {| envs := <[e := withCtx c env]> (envs s); world := w; journal := journal s ++ evs |}.

(** The actions that were run and the steps that were called, read off a
    journal. *)
Fixpoint actionsRun (evs : list event) : list action :=
  match evs with
  | [] => []
  | EvRunAction a _ :: rest => a :: actionsRun rest
  | _ :: rest => actionsRun rest
  end.

Fixpoint stepsCalled (evs : list event) : list (T * Step) :=
  match evs with
  | [] => []
  | EvStep t s _ :: rest => (t, s) :: stepsCalled rest
  | _ :: rest => stepsCalled rest
  end.

Fixpoint subtestsOpened (evs : list event) : list T :=
  match evs with
  | [] => []
  | EvSubtest t :: rest => t :: subtestsOpened rest
  | _ :: rest => subtestsOpened rest
  end.

(** A batch of actions every one of which succeeds, each run on the context
    the one before it returned: the calls made, and the context and the
    world at the end. [None] when one of them fails. *)
Fixpoint succeeds (cf : option Config) (acts : list action) (c : Ctx) (w : W) :
    option (list event * Ctx * W) :=
  match acts with
  | [] => Some ([], c, w)
  | a :: rest =>
      match run a c cf w with
      | ((c', None), w') =>
          match succeeds cf rest c' w' with
          | Some (evs, c'', w'') => Some (EvRunAction a c :: evs, c'', w'')
          | None => None
          end
      | ((_, Some _), _) => None
      end
  end.

(** A batch of actions run to its end whatever fails, an error being
    printed. *)
Fixpoint bestEffort (cf : option Config) (acts : list action) (c : Ctx) (w : W) :
    list event * Ctx * W :=
  match acts with
  | [] => ([], c, w)
  | a :: rest =>
      match run a c cf w with
      | ((c', err), w') =>
          match bestEffort cf rest c' w' with
          | (evs, c'', w'') =>
              (EvRunAction a c ::
                 match err with Some msg => EvLogPrintln msg :: evs | None => evs end,
               c'', w'')
          end
      end
  end.

(** A name passes a filter that is not set, or one that matches it. *)
Definition passes (get : Config -> W -> option regexp) (p : Config) (name : string)
    (w : W) : bool :=
  match get p w with
  | None => true
  | Some re => MatchString re name
  end.

(** Steps called one after the other in the scope [t]. *)
Fixpoint direct (t : T) (cf : option Config) (l : list Step) (c : Ctx) (w : W) :
    list event * Ctx * W :=
  match l with
  | [] => ([], c, w)
  | s :: rest =>
      match Step_Func s c t cf w with
      | (c', w') =>
          match direct t cf rest c' w' with
          | (evs, c'', w'') => (EvStep t s c :: evs, c'', w'')
          end
      end
  end.

(** Steps each given a sub-scope of [t] that bears its name, where the step
    is called unless the assessment filter rejects the name. *)
Fixpoint scoped (t : T) (p : Config) (l : list Step) (c : Ctx) (w : W) :
    list event * Ctx * W :=
  match l with
  | [] => ([], c, w)
  | s :: rest =>
      let ts := (t ++ [Step_Name s])%list in
      if passes AssessmentRegex p (Step_Name s) w then
        match Step_Func s c ts (Some p) w with
        | (c', w') =>
            match scoped t p rest c' w' with
            | (evs, c'', w'') => (EvSubtest ts :: EvStep ts s c :: evs, c'', w'')
            end
        end
      else
        match scoped t p rest c w with
        | (evs, c'', w'') =>
            (EvSubtest ts :: EvSkipf ts (skipAssessmentMsg (Step_Name s)) :: evs, c'', w'')
        end
  end.

(** The same with every step called, whatever the filter. *)
Fixpoint scopedAll (t : T) (cf : option Config) (l : list Step) (c : Ctx) (w : W) :
    list event * Ctx * W :=
  match l with
  | [] => ([], c, w)
  | s :: rest =>
      let ts := (t ++ [Step_Name s])%list in
      match Step_Func s c ts cf w with
      | (c', w') =>
          match scopedAll t cf rest c' w' with
          | (evs, c'', w'') => (EvSubtest ts :: EvStep ts s c :: evs, c'', w'')
          end
      end
  end.

(** The after phase of [Test]. *)
Definition afterPhase (e : loc) (t : T) (feature : Feature) : exec machine unit :=
  let* afters := GetAfterActions e in
  forEach afters (runInto e (fun err =>
    T_Fatalf t ("AfterTest failure: " ++ Feature_Name feature ++ ": " ++ err))).

(** The calls of the public interface that make and change environments. *)
Inductive apiCall : Type :=
| CallNew
| CallNewWithConfig (cf : option Config)
| CallNewWithContext (c : Ctx) (cf : option Config)
| CallWithContext (e : loc) (c : Ctx)
| CallSetup (e : loc) (fs : list Func)
| CallBeforeTest (e : loc) (fs : list Func)
| CallAfterTest (e : loc) (fs : list Func)
| CallFinish (e : loc) (fs : list Func).

Definition discard {S A : Type} (m : exec S A) : exec S unit :=
  let* _ := m in ret tt.

Definition perform (k : apiCall) : exec machine unit :=
  match k with
  | CallNew => discard New
  | CallNewWithConfig cf => discard (NewWithConfig cf)
  | CallNewWithContext c cf => discard (NewWithContext c cf)
  | CallWithContext e c => discard (WithContext e c)
  | CallSetup e fs => discard (Setup e fs)
  | CallBeforeTest e fs => discard (BeforeTest e fs)
  | CallAfterTest e fs => discard (AfterTest e fs)
  | CallFinish e fs => discard (Finish e fs)
  end.

(** A machine on which no environment has been made yet, and one all of
    whose environments carry a context. *)
Definition pristine (s : machine) : Prop := envs s = ∅.

Definition nonNilCtx (s : machine) : Prop :=
  forall e env, envs s !! e = Some env -> is_Some (ctx env).

(** Section 4.6 read on its own, for every feature and without the filters of
    section 4.5: the Setup-level steps are called in the feature's scope,
    then every Assess-level step in a sub-scope of its own, then the
    Teardown-level steps, each level starting from the context and the world
    the level before it ended with. *)
Definition everyStepRuns (e : loc) (c : Ctx) (t : T) (f : Feature) (s : machine) : Prop :=
  forall env evS c1 w1 evA c2 w2 evT c3 w3,
    envs s !! e = Some env ->
    let ft := (t ++ [Feature_Name f])%list in
    direct ft (cfg env) (GetStepsByLevel (Feature_Steps f) LevelSetup) c (world s)
      = (evS, c1, w1) ->
    scopedAll ft (cfg env) (GetStepsByLevel (Feature_Steps f) LevelAssess) c1 w1
      = (evA, c2, w2) ->
    direct ft (cfg env) (GetStepsByLevel (Feature_Steps f) LevelTeardown) c2 w2
      = (evT, c3, w3) ->
    execFeature e c t f s
      = (Done c3, setWorld w3 (logged (EvSubtest ft :: evS ++ evA ++ evT) s)).

End Vocabulary.

(** ** A small suite to run the definitions on *)

Module Demo.

Record filters : Type := { featureFilter : option regexp; assessmentFilter : option regexp }.

(** The world is a counter of the calls made into user code, a context
    carries a number, and a configuration is its two filters. *)
Definition harness : Harness :=
  {| W := nat;
     CtxVal := nat;
     Background := 0;
     Config := filters;
     envconf_New := fun w => ({| featureFilter := None; assessmentFilter := None |}, w);
     FeatureRegex := fun p _ => featureFilter p;
     AssessmentRegex := fun p _ => assessmentFilter p |}.

#[local] Existing Instance harness.

(** The filter that matches the one name [n]. *)
Definition only (n : string) : regexp := {| MatchString := fun x => String.eqb x n |}.

Definition bump : Func := fun c _ w => ((S <$> c, None), S w).
Definition boom : Func := fun c _ w => ((c, Some "boom"), w + 100).

Definition act (r : actionRole) (f : Func) : action := {| role := r; funcs := [f] |}.

Definition inc : StepFunc := fun c _ _ w => (S <$> c, S w).

Definition step (n : string) (l : Level) : Step :=
  {| Step_Name := n; Step_Level := l; Step_Func := inc |}.

Definition F : Feature :=
  {| Feature_Name := "F";
     Feature_Steps := [step "a" LevelAssess; step "s" LevelSetup;
                       step "t" LevelTeardown; step "b" LevelAssess] |}.

Definition unfiltered : filters := {| featureFilter := None; assessmentFilter := None |}.
Definition onlyB : filters := {| featureFilter := None; assessmentFilter := Some (only "b") |}.
Definition onlyG : filters := {| featureFilter := Some (only "G"); assessmentFilter := None |}.

Definition env0 (cf : filters) (acts : list action) : testEnv :=
  {| ctx := Some 0; cfg := Some cf; actions := acts |}.

(** A machine whose one environment is at address 1. *)
Definition boot (env : testEnv) : machine :=
  {| envs := {[ 1%positive := env ]}; world := 0; journal := [] |}.

Definition empty : machine := {| envs := ∅; world := 0; journal := [] |}.

Definition suite : list action :=
  [act roleSetup bump; act roleBefore bump; act roleFinish boom; act roleAfter bump;
   act roleFinish bump].

(** Suites whose second Setup, Before or After action fails. *)
Definition failing (r : actionRole) : list action :=
  [act r bump; act r boom; act r bump; act roleFinish bump].

Definition m0 : testingM := {| mRun := fun s => (7%Z, s) |}.

(** A test suite written otherwise, that does what [m0] does. *)
Definition m1 : testingM := {| mRun := fun s => (7%Z, setWorld (world s) s) |}.

(** An environment is made, an action is registered on it, and a second
    environment is derived from it. *)
Definition calls : list apiCall :=
  [CallNew; CallSetup 1%positive [bump];
   CallWithContext (H := harness) 1%positive (Some 4)].

End Demo.

(** ** Chains of registrations, and what a feature reports *)

Section Further.

Context `{Harness}.

(** [e.Setup(f).Finish(g)...]: each registration is called on what the one
    before it returned. *)
Fixpoint chain (e : loc) (regs : list (actionRole * list Func)) : exec machine loc :=
  match regs with
  | [] => ret e
  | rf :: rest => let* e' := register rf.1 e rf.2 in chain e' rest
  end.

(** The actions a chain of registrations stands for: one for each
    registration that has a function, in the order of the chain. *)
Definition registered (regs : list (actionRole * list Func)) : list action :=
  map (fun rf => {| role := rf.1; funcs := rf.2 |})
      (filter (fun rf => length rf.2 ≠ 0) regs).

(** The events of a feature: a sub-scope opened, a step called or a skip,
    in the scope [ft] or under it. *)
Definition reported (ft : T) (ev : event) : Prop :=
  match ev with
  | EvSubtest t | EvStep t _ _ | EvSkipf t _ => ft `prefix_of` t
  | _ => False
  end.

Definition withActions (l : list action) (env : testEnv) : testEnv :=
  {| ctx := ctx env; cfg := cfg env; actions := l |}.

End Further.

Module Samples.

Import Demo.
#[local] Existing Instance Demo.harness.

(** A step that returns a nil context. *)
Definition lose : StepFunc := fun _ _ _ w => (None, S w).

Definition Flose : Feature :=
  {| Feature_Name := "L";
     Feature_Steps := [step "s" LevelSetup;
                       {| Step_Name := "z"; Step_Level := LevelTeardown; Step_Func := lose |}] |}.

(** An environment made by [NewWithConfig] with a nil configuration. *)
Definition bare : testEnv := {| ctx := Some 0; cfg := None; actions := [] |}.

Definition regs : list (actionRole * list Func) :=
  [(roleSetup, [bump]); (roleFinish, []); (roleAfter, [bump; boom]); (roleSetup, [boom])].

(** A test suite that is one call of Test on the feature [F]. *)
Definition oneTest : testingM :=
  {| mRun := fun s => (0%Z, (Test 1%positive ["TestX"] F s).2) |}.

End Samples.

(** * Properties *)

Section Facts.

Context `{Harness}.

(** ** Machines *)

Lemma machine_eq (a b : machine) :
  envs a = envs b -> world a = world b -> journal a = journal b -> a = b.
Proof. destruct a, b; simpl; intros; subst; reflexivity. Qed.

Ltac same_machine :=
  apply machine_eq; simpl; rewrite <- ?app_assoc, ?insert_insert_eq; done.

Lemma settled_lookup e env c w evs s :
  envs (settled e env c w evs s) !! e = Some (withCtx c env).
Proof. apply lookup_insert_eq. Qed.

Lemma settled_settled e env c w evs c' w' evs' s :
  settled e (withCtx c env) c' w' evs' (settled e env c w evs s)
  = settled e env c' w' (evs ++ evs') s.
Proof. same_machine. Qed.

Lemma settled_id e env s :
  envs s !! e = Some env -> settled e env (ctx env) (world s) [] s = s.
Proof.
  intros He. apply machine_eq; simpl; [|done|by rewrite app_nil_r].
  apply insert_id. rewrite He. by destruct env.
Qed.

Lemma moved_moved w evs w' evs' (s : machine) :
  setWorld w' (logged evs' (setWorld w (logged evs s))) = setWorld w' (logged (evs ++ evs') s).
Proof. same_machine. Qed.

Lemma moved_id (s : machine) : setWorld (world s) (logged [] s) = s.
Proof. apply machine_eq; simpl; try done. by rewrite app_nil_r. Qed.

Lemma forEach_app {S A : Type} (l1 l2 : list A) (body : A -> exec S unit) (s : S) :
  forEach (l1 ++ l2) body s =
    match forEach l1 body s with
    | (Done _, s') => forEach l2 body s'
    | r => r
    end.
Proof.
  revert s; induction l1 as [|x l1 IH]; intros s; simpl; [done|].
  unfold bind. destruct (body x s) as [[[]| | |] s']; done.
Qed.

(** ** Registration and retrieval *)

Lemma collect_filter (r : actionRole) (l acc : list action) :
  collect r acc l = (acc ++ byRole r l)%list.
Proof.
  revert acc; induction l as [|a l IH]; intros acc; simpl.
  - by rewrite app_nil_r.
  - unfold byRole in *. rewrite filter_cons. destruct (decide (role a = r)).
    + rewrite IH. by rewrite <- app_assoc.
    + apply IH.
Qed.

Lemma getActionsByRole_spec (e : loc) (r : actionRole) (s : machine) (env : testEnv) :
  envs s !! e = Some env ->
  getActionsByRole e r s = (Done (byRole r (actions env)), s).
Proof.
  intros He. unfold getActionsByRole, bind, deref. rewrite He.
  destruct (actions env) as [|a l] eqn:Ha; [reflexivity|].
  unfold ret. by rewrite collect_filter.
Qed.

Lemma retrieve_spec (r : actionRole) (e : loc) (s : machine) (env : testEnv) :
  envs s !! e = Some env ->
  retrieve r e s = (Done (byRole r (actions env)), s).
Proof. destruct r; apply getActionsByRole_spec. Qed.

Lemma appendAction_spec (e : loc) (a : action) (s : machine) (env : testEnv) :
  envs s !! e = Some env ->
  appendAction e a s = (Done tt, setEnvs (<[e := withAction a env]> (envs s)) s).
Proof. intros He. unfold appendAction, bind, deref. by rewrite He. Qed.

Lemma register_spec (r : actionRole) (e : loc) (fs : list Func) (s : machine) (env : testEnv) :
  envs s !! e = Some env -> fs ≠ [] ->
  register r e fs s =
    (Done e, setEnvs (<[e := withAction {| role := r; funcs := fs |} env]> (envs s)) s).
Proof.
  intros He Hfs.
  assert (Hlen : length fs ≠ 0) by (destruct fs; [done | simpl; lia]).
  destruct r; simpl; unfold Setup, BeforeTest, AfterTest, Finish;
    (destruct (decide (length fs = 0)); [done|]);
    unfold bind; erewrite appendAction_spec by eassumption; reflexivity.
Qed.

Lemma register_nil (r : actionRole) (e : loc) (s : machine) :
  register r e [] s = (Done e, s).
Proof. destruct r; reflexivity. Qed.

Lemma byRole_app (r : actionRole) (l1 l2 : list action) :
  byRole r (l1 ++ l2) = (byRole r l1 ++ byRole r l2)%list.
Proof. apply filter_app. Qed.

Lemma byRole_none (r : actionRole) (l : list action) :
  (forall a, a ∈ l -> role a ≠ r) -> byRole r l = [].
Proof.
  induction l as [|a l IH]; intros Hl; [done|].
  unfold byRole in *. rewrite filter_cons.
  destruct (decide (role a = r)) as [Hr|_].
  - exfalso. eapply Hl; [left | done].
  - apply IH. intros b Hb. apply Hl. by right.
Qed.

Lemma byRole_role (r : actionRole) (l : list action) :
  Forall (fun a => role a = r) (byRole r l).
Proof. apply Forall_forall. intros a Ha. by apply list_elem_of_filter in Ha as [? _]. Qed.

Lemma alloc_spec (env : testEnv) (s : machine) :
  exists e, alloc env s = (Done e, setEnvs (<[e := env]> (envs s)) s) ∧ envs s !! e = None.
Proof.
  exists (fresh (dom (envs s))). split; [reflexivity|].
  apply not_elem_of_dom, is_fresh.
Qed.

Lemma WithContext_spec (e : loc) (c : Ctx) (s : machine) (env : testEnv) :
  envs s !! e = Some env -> is_Some c ->
  exists e',
    WithContext e c s =
      (Done e', setEnvs (<[e' := {| ctx := c; cfg := cfg env; actions := actions env |}]> (envs s)) s)
    ∧ envs s !! e' = None.
Proof.
  intros He [v ->].
  destruct (alloc_spec {| ctx := Some v; cfg := cfg env; actions := [] |} s) as (e' & Ha & Hfresh).
  exists e'. split; [|done].
  unfold WithContext, bind, deref. rewrite He, Ha. simpl.
  rewrite lookup_insert_eq. unfold assign, ret, setEnvs. simpl.
  by rewrite insert_insert_eq.
Qed.

(** C6. A registration with at least one function appends one action of the
    method's role to the environment's list, and nothing else changes; the
    retrieval of a role returns the actions of that role in the order of
    their registration, so the new action comes last for its own role and
    the other roles read as before; it returns the empty list when the
    environment has no action of the role. *)
Theorem registration_appends_one_action (r : actionRole) (e : loc) (fs : list Func)
    (s : machine) (env : testEnv) :
  envs s !! e = Some env -> fs ≠ [] ->
  let a := {| role := r; funcs := fs |} in
  let s' := setEnvs (<[e := withAction a env]> (envs s)) s in
  register r e fs s = (Done e, s')
  ∧ actions (withAction a env) = (actions env ++ [a])%list
  ∧ length (actions (withAction a env)) = S (length (actions env))
  ∧ retrieve r e s' = (Done (byRole r (actions env) ++ [a])%list, s')
  ∧ (forall r', r' ≠ r -> retrieve r' e s' = (Done (byRole r' (actions env)), s'))
  ∧ (forall r', retrieve r' e s = (Done (byRole r' (actions env)), s))
  ∧ (forall r', (forall b, b ∈ actions env -> role b ≠ r') -> retrieve r' e s = (Done [], s)).
Proof.
  intros He Hfs a s'.
  assert (He' : envs s' !! e = Some (withAction a env)) by apply lookup_insert_eq.
  split; [by apply register_spec|].
  split; [reflexivity|].
  split; [simpl; rewrite length_app; simpl; lia|].
  split.
  { rewrite (retrieve_spec r e s' _ He'). simpl. rewrite byRole_app.
    unfold byRole at 2. rewrite filter_cons. simpl.
    destruct (decide (r = r)); [done | congruence]. }
  split.
  { intros r' Hr'. rewrite (retrieve_spec r' e s' _ He'). simpl. rewrite byRole_app.
    unfold byRole at 2. rewrite filter_cons. simpl.
    destruct (decide (r = r')); [congruence|]. by rewrite app_nil_r. }
  split.
  { intros r'. by apply retrieve_spec. }
  intros r' Hnone. rewrite (retrieve_spec r' e s env He). by rewrite byRole_none.
Qed.

(** C7. Each of the four registration methods, called with no function,
    returns its receiver and leaves the machine as it was: the action list
    of every environment, its length included, is the one before the call. *)
Theorem registration_without_functions (e : loc) (s : machine) :
  Setup e [] s = (Done e, s)
  ∧ BeforeTest e [] s = (Done e, s)
  ∧ AfterTest e [] s = (Done e, s)
  ∧ Finish e [] s = (Done e, s).
Proof. repeat split. Qed.

(** C8. From an environment [e] and a context that is not nil, WithContext
    makes a new environment, at an address of its own, that has the given
    context, the configuration of [e] and the action list of [e], so that
    every retrieval reads from it what it reads from [e]; [e] and every other
    environment are as before, and stay so when actions are registered on
    the new one. With a nil context the call panics. *)
Theorem WithContext_derives_a_copy (e : loc) (c : Ctx) (s : machine) (env : testEnv) :
  envs s !! e = Some env -> is_Some c ->
  (exists e' s',
      WithContext e c s = (Done e', s')
      ∧ e' ≠ e
      ∧ envs s' !! e' = Some {| ctx := c; cfg := cfg env; actions := actions env |}
      ∧ envs s' !! e = Some env
      ∧ (forall e0, e0 ≠ e' -> envs s' !! e0 = envs s !! e0)
      ∧ world s' = world s ∧ journal s' = journal s
      ∧ (forall r, exists l, retrieve r e' s' = (Done l, s') ∧ retrieve r e s = (Done l, s))
      ∧ (forall r fs, exists s'', register r e' fs s' = (Done e', s'') ∧ envs s'' !! e = Some env))
  ∧ WithContext e None s = (Panic "nil context", s).
Proof.
  intros He Hc. split; [|reflexivity].
  destruct (WithContext_spec e c s env He Hc) as (e' & Hw & Hfresh).
  assert (Hne : e' ≠ e) by (intros ->; congruence).
  eexists e', _. split; [exact Hw|].
  split; [done|]. simpl.
  split; [apply lookup_insert_eq|].
  split; [by rewrite lookup_insert_ne|].
  split; [intros e0 H0; by rewrite lookup_insert_ne|].
  split; [done|]. split; [done|].
  split.
  { intros r. eexists. split.
    - apply retrieve_spec. simpl. apply lookup_insert_eq.
    - simpl. by apply retrieve_spec. }
  intros r fs. destruct fs as [|f fs].
  - eexists. split; [apply register_nil|]. simpl.
    by rewrite lookup_insert_ne.
  - eexists. split.
    + apply register_spec; [simpl; apply lookup_insert_eq | done].
    + simpl. rewrite lookup_insert_ne by done. by rewrite lookup_insert_ne.
Qed.

(** ** Batches of actions *)

(** One action run into [e]: the call is journalled, the world moves on and
    [e.ctx] takes the context that came back, before the error is looked at. *)
Lemma runInto_spec e onError a s env c' err w' :
  envs s !! e = Some env ->
  run a (ctx env) (cfg env) (world s) = ((c', err), w') ->
  runInto e onError a s =
    match err with
    | Some msg => onError msg (settled e env c' w' [EvRunAction a (ctx env)] s)
    | None => (Done tt, settled e env c' w' [EvRunAction a (ctx env)] s)
    end.
Proof.
  intros He Hrun. unfold runInto, bind, deref, callRun, bind, emit, call. rewrite He. simpl.
  rewrite Hrun. simpl. unfold setCtx, bind, deref. simpl. rewrite He. simpl.
  by destruct err.
Qed.

Lemma forEach_succeeds e onError acts s env evs c' w' :
  envs s !! e = Some env ->
  succeeds (cfg env) acts (ctx env) (world s) = Some (evs, c', w') ->
  forEach acts (runInto e onError) s = (Done tt, settled e env c' w' evs s).
Proof.
  revert s env evs c' w'.
  induction acts as [|a acts IH]; intros s env evs c' w' He Hs; simpl in *.
  - injection Hs as <- <- <-. unfold ret. by rewrite settled_id.
  - destruct (run a (ctx env) (cfg env) (world s)) as [[c1 [msg|]] w1] eqn:Hrun; [done|].
    destruct (succeeds (cfg env) acts c1 w1) as [[[evs1 c2] w2]|] eqn:Hrest; [|done].
    injection Hs as <- <- <-.
    unfold bind. rewrite (runInto_spec e onError a s env c1 None w1 He Hrun).
    rewrite (IH _ (withCtx c1 env) evs1 c2 w2); [|apply settled_lookup|done].
    by rewrite settled_settled.
Qed.

Lemma forEach_fails e onError pre a post s env evs c1 w1 c2 msg w2 :
  envs s !! e = Some env ->
  succeeds (cfg env) pre (ctx env) (world s) = Some (evs, c1, w1) ->
  run a c1 (cfg env) w1 = ((c2, Some msg), w2) ->
  forEach (pre ++ a :: post) (runInto e onError) s =
    match onError msg (settled e env c2 w2 (evs ++ [EvRunAction a c1]) s) with
    | (Done _, s') => forEach post (runInto e onError) s'
    | r => r
    end.
Proof.
  intros He Hs Hrun. rewrite forEach_app.
  rewrite (forEach_succeeds e onError pre s env evs c1 w1 He Hs). simpl. unfold bind.
  rewrite (runInto_spec e onError a _ (withCtx c1 env) c2 (Some msg) w2);
    [|apply settled_lookup|done].
  simpl. rewrite settled_settled.
  by destruct (onError msg _) as [[[]| | |] s'].
Qed.

Lemma forEach_bestEffort e acts s env evs c' w' :
  envs s !! e = Some env ->
  bestEffort (cfg env) acts (ctx env) (world s) = (evs, c', w') ->
  forEach acts (runInto e log_Println) s = (Done tt, settled e env c' w' evs s).
Proof.
  revert s env evs c' w'.
  induction acts as [|a acts IH]; intros s env evs c' w' He Hs; simpl in *.
  - injection Hs as <- <- <-. unfold ret. by rewrite settled_id.
  - destruct (run a (ctx env) (cfg env) (world s)) as [[c1 err] w1] eqn:Hrun.
    destruct (bestEffort (cfg env) acts c1 w1) as [[evs1 c2] w2] eqn:Hrest.
    injection Hs as <- <- <-.
    unfold bind. rewrite (runInto_spec e log_Println a s env c1 err w1 He Hrun).
    destruct err as [msg|].
    + unfold log_Println, emit.
      replace (logged [EvLogPrintln msg] (settled e env c1 w1 [EvRunAction a (ctx env)] s))
        with (settled e env c1 w1 [EvRunAction a (ctx env); EvLogPrintln msg] s)
        by same_machine.
      rewrite (IH _ (withCtx c1 env) evs1 c2 w2); [|apply settled_lookup|done].
      by rewrite settled_settled.
    + rewrite (IH _ (withCtx c1 env) evs1 c2 w2); [|apply settled_lookup|done].
      by rewrite settled_settled.
Qed.

Lemma actionsRun_app evs1 evs2 :
  actionsRun (evs1 ++ evs2) = (actionsRun evs1 ++ actionsRun evs2)%list.
Proof. induction evs1 as [|[] evs1 IH]; simpl; by rewrite ?IH. Qed.

Lemma stepsCalled_app evs1 evs2 :
  stepsCalled (evs1 ++ evs2) = (stepsCalled evs1 ++ stepsCalled evs2)%list.
Proof. induction evs1 as [|[] evs1 IH]; simpl; by rewrite ?IH. Qed.

Lemma subtestsOpened_app evs1 evs2 :
  subtestsOpened (evs1 ++ evs2) = (subtestsOpened evs1 ++ subtestsOpened evs2)%list.
Proof. induction evs1 as [|[] evs1 IH]; simpl; by rewrite ?IH. Qed.

(** A batch that succeeds journals the run of each of its actions, in
    order, and nothing else. *)
Lemma succeeds_journal cf acts c w evs c' w' :
  succeeds cf acts c w = Some (evs, c', w') ->
  actionsRun evs = acts ∧ stepsCalled evs = [] ∧ subtestsOpened evs = []
  ∧ EvMRun ∉ evs.
Proof.
  revert c w evs c' w'.
  induction acts as [|a acts IH]; intros c w evs c' w' Hs; simpl in *.
  - injection Hs as <- <- <-. repeat split. apply not_elem_of_nil.
  - destruct (run a c cf w) as [[c1 [msg|]] w1]; [done|].
    destruct (succeeds cf acts c1 w1) as [[[evs1 c2] w2]|] eqn:Hrest; [|done].
    injection Hs as <- <- <-. destruct (IH _ _ _ _ _ Hrest) as (Ha & ? & ? & ?).
    simpl. rewrite Ha. repeat split; try done. apply not_elem_of_cons. by split.
Qed.

Lemma bestEffort_actionsRun cf acts c w evs c' w' :
  bestEffort cf acts c w = (evs, c', w') -> actionsRun evs = acts.
Proof.
  revert c w evs c' w'.
  induction acts as [|a acts IH]; intros c w evs c' w' Hs; simpl in *.
  - by injection Hs as <- <- <-.
  - destruct (run a c cf w) as [[c1 err] w1].
    destruct (bestEffort cf acts c1 w1) as [[evs1 c2] w2] eqn:Hrest.
    injection Hs as <- <- <-. simpl. destruct err; simpl; f_equal; eauto.
Qed.

Lemma bestEffort_app cf l1 l2 c w :
  bestEffort cf (l1 ++ l2) c w =
    match bestEffort cf l1 c w with
    | (evs1, c1, w1) =>
        match bestEffort cf l2 c1 w1 with
        | (evs2, c2, w2) => ((evs1 ++ evs2)%list, c2, w2)
        end
    end.
Proof.
  revert c w. induction l1 as [|a l1 IH]; intros c w; simpl.
  - by destruct (bestEffort cf l2 c w) as [[evs2 c2] w2].
  - destruct (run a c cf w) as [[c1 err] w1]. rewrite IH.
    destruct (bestEffort cf l1 c1 w1) as [[evs1 c2] w2].
    destruct (bestEffort cf l2 c2 w2) as [[evs2 c3] w3].
    by destruct err.
Qed.

(** A batch either succeeds or has a first action that fails. *)
Lemma succeeds_or_fails cf acts c w :
  (exists evs c' w', succeeds cf acts c w = Some (evs, c', w'))
  ∨ (exists pre a post evs c1 w1 c2 msg w2,
       acts = (pre ++ a :: post)%list
       ∧ succeeds cf pre c w = Some (evs, c1, w1)
       ∧ run a c1 cf w1 = ((c2, Some msg), w2)).
Proof.
  revert c w. induction acts as [|a acts IH]; intros c w; simpl.
  - left. by eexists _, _, _.
  - destruct (run a c cf w) as [[c1 [msg|]] w1] eqn:Hrun.
    + right. exists [], a, acts, [], c, w, c1, msg, w1. by simpl.
    + destruct (IH c1 w1) as [(evs & c' & w' & Hs)
        |(pre & b & post & evs & c2 & w2 & c3 & msg & w3 & -> & Hs & Hb)].
      * left. rewrite Hs. by eexists _, _, _.
      * right. exists (a :: pre), b, post, (EvRunAction a c :: evs), c2, w2, c3, msg, w3.
        simpl. rewrite Hrun, Hs. by simpl.
Qed.

(** ** Run *)

Lemma Run_after_setups e m s env evs c1 w1 :
  envs s !! e = Some env -> is_Some (ctx env) ->
  succeeds (cfg env) (byRole roleSetup (actions env)) (ctx env) (world s) = Some (evs, c1, w1) ->
  Run e m s =
    match mRun m (logged [EvMRun] (settled e env c1 w1 evs s)) with
    | (code, s2) =>
        match envs s2 !! e with
        | None => (Panic nilDereference, s2)
        | Some env2 =>
            match bestEffort (cfg env2) (byRole roleFinish (actions env2))
                    (ctx env2) (world s2) with
            | (evsF, cF, wF) => (Done code, settled e env2 cF wF evsF s2)
            end
        end
    end.
Proof.
  intros He [v Hv] Hs. unfold Run. unfold bind at 1. unfold deref at 1. rewrite He, Hv.
  unfold GetSetupActions. unfold bind at 1. rewrite (getActionsByRole_spec e roleSetup s env He).
  unfold bind at 1.
  rewrite (forEach_succeeds e log_Fatal _ s env evs c1 w1 He Hs).
  unfold bind at 1. unfold M_Run, bind, emit. simpl.
  destruct (mRun m _) as [code s2]. unfold GetFinishActions.
  destruct (envs s2 !! e) as [env2|] eqn:He2.
  - rewrite (getActionsByRole_spec e roleFinish s2 env2 He2).
    destruct (bestEffort _ _ _ _) as [[evsF cF] wF] eqn:Hb.
    by rewrite (forEach_bestEffort e _ s2 env2 evsF cF wF He2 Hb).
  - unfold getActionsByRole, bind, deref. by rewrite He2.
Qed.

Lemma Run_setup_fails e m s env pre a post evs c1 w1 c2 msg w2 :
  envs s !! e = Some env -> is_Some (ctx env) ->
  byRole roleSetup (actions env) = (pre ++ a :: post)%list ->
  succeeds (cfg env) pre (ctx env) (world s) = Some (evs, c1, w1) ->
  run a c1 (cfg env) w1 = ((c2, Some msg), w2) ->
  Run e m s = (OsExit 1, settled e env c2 w2 (evs ++ [EvRunAction a c1; EvLogFatal msg]) s).
Proof.
  intros He [v Hv] Hsplit Hs Hrun. unfold Run. unfold bind at 1. unfold deref at 1.
  rewrite He, Hv.
  unfold GetSetupActions. unfold bind at 1. rewrite (getActionsByRole_spec e roleSetup s env He).
  unfold bind at 1. rewrite Hsplit.
  rewrite (forEach_fails e log_Fatal pre a post s env evs c1 w1 c2 msg w2 He Hs Hrun).
  unfold log_Fatal, bind, emit. simpl. f_equal. same_machine.
Qed.

(** C2. The Setup actions are run in the order of their registration, each
    on the context the one before it returned.  When they all succeed, the
    rest of Run depends on the test suite only through what it does on the
    machine they leave.  When one of them fails after the ones before it
    succeeded, Run ends the process with status 1 once the error is logged:
    the actions run are the Setup actions up to the failing one and no
    other, and the test suite is not run. *)
Theorem Run_setup_failure_aborts (e : loc) (m : testingM) (s : machine) (env : testEnv) :
  envs s !! e = Some env -> is_Some (ctx env) ->
  (forall evs c1 w1 m',
      succeeds (cfg env) (byRole roleSetup (actions env)) (ctx env) (world s)
        = Some (evs, c1, w1) ->
      mRun m' (logged [EvMRun] (settled e env c1 w1 evs s))
        = mRun m (logged [EvMRun] (settled e env c1 w1 evs s)) ->
      Run e m' s = Run e m s)
  ∧ (forall pre a post evs c1 w1 c2 msg w2,
      byRole roleSetup (actions env) = (pre ++ a :: post)%list ->
      succeeds (cfg env) pre (ctx env) (world s) = Some (evs, c1, w1) ->
      run a c1 (cfg env) w1 = ((c2, Some msg), w2) ->
      let done := (evs ++ [EvRunAction a c1; EvLogFatal msg])%list in
      Run e m s = (OsExit 1, settled e env c2 w2 done s)
      ∧ actionsRun done = (pre ++ [a])%list
      ∧ Forall (fun b => role b = roleSetup) (actionsRun done)
      ∧ EvMRun ∉ done).
Proof.
  intros He Hc. split.
  - intros evs c1 w1 m' Hs Hm.
    rewrite (Run_after_setups e m' s env evs c1 w1 He Hc Hs).
    rewrite (Run_after_setups e m s env evs c1 w1 He Hc Hs).
    by rewrite Hm.
  - intros pre a post evs c1 w1 c2 msg w2 Hsplit Hs Hrun done.
    destruct (succeeds_journal _ _ _ _ _ _ _ Hs) as (Hacts & _ & _ & Hm).
    assert (Hdone : actionsRun done = (pre ++ [a])%list).
    { unfold done. rewrite actionsRun_app, Hacts. reflexivity. }
    split; [by apply (Run_setup_fails e m s env pre a post evs c1 w1)|].
    split; [exact Hdone|].
    split.
    + rewrite Hdone. pose proof (byRole_role roleSetup (actions env)) as Hall.
      rewrite Hsplit in Hall. apply Forall_app in Hall as [Hp Ha].
      apply Forall_app. split; [done|]. apply Forall_cons in Ha as [Ha _]. by apply Forall_singleton.
    + unfold done. intros Hin. apply elem_of_app in Hin as [Hin|Hin]; [done|].
      apply elem_of_cons in Hin as [Hin|Hin]; [done|].
      apply elem_of_cons in Hin as [Hin|Hin]; [done|]. by apply elem_of_nil in Hin.
Qed.

(** C3. Once the setups have succeeded and the test suite has returned its
    exit code, every Finish action the environment then has is run, in the
    order of registration: an action that fails has its error printed and
    the next one is run on the context that came back with the error.  Run
    returns the exit code of the test suite. *)
Theorem Run_finish_best_effort (e : loc) (m : testingM) (s : machine) (env : testEnv)
    evs c1 w1 code s2 env2 evsF cF wF :
  envs s !! e = Some env -> is_Some (ctx env) ->
  succeeds (cfg env) (byRole roleSetup (actions env)) (ctx env) (world s) = Some (evs, c1, w1) ->
  mRun m (logged [EvMRun] (settled e env c1 w1 evs s)) = (code, s2) ->
  envs s2 !! e = Some env2 ->
  bestEffort (cfg env2) (byRole roleFinish (actions env2)) (ctx env2) (world s2)
    = (evsF, cF, wF) ->
  Run e m s = (Done code, settled e env2 cF wF evsF s2)
  ∧ actionsRun evsF = byRole roleFinish (actions env2)
  ∧ (forall pre a post evsP cP wP c' msg w' evsQ cQ wQ,
        byRole roleFinish (actions env2) = (pre ++ a :: post)%list ->
        bestEffort (cfg env2) pre (ctx env2) (world s2) = (evsP, cP, wP) ->
        run a cP (cfg env2) wP = ((c', Some msg), w') ->
        bestEffort (cfg env2) post c' w' = (evsQ, cQ, wQ) ->
        evsF = (evsP ++ [EvRunAction a cP; EvLogPrintln msg] ++ evsQ)%list
        ∧ actionsRun evsQ = post ∧ cF = cQ ∧ wF = wQ).
Proof.
  intros He Hc Hs Hm He2 Hb.
  split.
  { rewrite (Run_after_setups e m s env evs c1 w1 He Hc Hs). by rewrite Hm, He2, Hb. }
  split; [by eapply bestEffort_actionsRun|].
  intros pre a post evsP cP wP c' msg w' evsQ cQ wQ Hsplit HP Hrun HQ.
  rewrite Hsplit, bestEffort_app, HP in Hb. simpl in Hb. rewrite Hrun, HQ in Hb.
  injection Hb as <- <- <-.
  repeat split. by eapply bestEffort_actionsRun.
Qed.

(** ** Steps of a feature *)

Lemma callStep_spec e t st c s env c' w' :
  envs s !! e = Some env ->
  Step_Func st c t (cfg env) (world s) = (c', w') ->
  callStep e t st (c, s) = (Done tt, (c', setWorld w' (logged [EvStep t st c] s))).
Proof.
  intros He Hf. unfold callStep, bind, getVar, lift, deref, emit, call, setVar. simpl.
  rewrite He. simpl. by rewrite Hf.
Qed.

Lemma forEach_direct e t l c s env evs c' w' :
  envs s !! e = Some env ->
  direct t (cfg env) l c (world s) = (evs, c', w') ->
  forEach l (callStep e t) (c, s) = (Done tt, (c', setWorld w' (logged evs s))).
Proof.
  revert c s evs c' w'. induction l as [|st l IH]; intros c s evs c' w' He Hd; simpl in *.
  - injection Hd as <- <- <-. unfold ret. by rewrite moved_id.
  - destruct (Step_Func st c t (cfg env) (world s)) as [c1 w1] eqn:Hf.
    destruct (direct t (cfg env) l c1 w1) as [[evs1 c2] w2] eqn:Hrest.
    injection Hd as <- <- <-. unfold bind.
    rewrite (callStep_spec e t st c s env c1 w1 He Hf).
    rewrite (IH c1 _ evs1 c2 w2); [|done|done].
    by rewrite moved_moved.
Qed.

Lemma notMatched_spec get e name s env p :
  envs s !! e = Some env -> cfg env = Some p ->
  notMatched get e name s = (Done (negb (passes get p name (world s))), s).
Proof.
  intros He Hp. unfold notMatched, bind, deref, readFilter, passes. rewrite He, Hp.
  destruct (get p (world s)) as [re|] eqn:Hg; simpl; [|done].
  rewrite He. simpl. rewrite Hp. by rewrite Hg.
Qed.

Lemma notMatched_nil_cfg get e name s env :
  envs s !! e = Some env -> cfg env = None ->
  notMatched get e name s = (Panic nilDereference, s).
Proof. intros He Hp. unfold notMatched, bind, deref, readFilter. by rewrite He, Hp. Qed.

Lemma passes_false get p name w :
  passes get p name w = false <->
  exists re, get p w = Some re ∧ MatchString re name = false.
Proof.
  unfold passes. destruct (get p w) as [re|]; split.
  - intros Hm. by exists re.
  - by intros (re' & [= <-] & Hm).
  - done.
  - by intros (re' & ? & _).
Qed.

Lemma forEach_scoped e t l c s env p evs c' w' :
  envs s !! e = Some env -> cfg env = Some p ->
  scoped t p l c (world s) = (evs, c', w') ->
  forEach l (fun assess =>
      T_Run t (Step_Name assess) (fun t0 =>
        let* skip := lift (notMatched AssessmentRegex e (Step_Name assess)) in
        let* _ := (if skip : bool
                   then lift (T_Skipf t0 (skipAssessmentMsg (Step_Name assess)))
                   else ret tt) in
        callStep e t0 assess)) (c, s)
  = (Done tt, (c', setWorld w' (logged evs s))).
Proof.
  revert c s evs c' w'. induction l as [|st l IH]; intros c s evs c' w' He Hp Hd; simpl in *.
  - injection Hd as <- <- <-. unfold ret. by rewrite moved_id.
  - unfold bind at 1. unfold T_Run at 1. unfold bind, lift, emit. simpl.
    rewrite (notMatched_spec AssessmentRegex e (Step_Name st) _ env p); [|done|done].
    simpl.
    destruct (passes AssessmentRegex p (Step_Name st) (world s)) eqn:Hpass; simpl.
    + destruct (Step_Func st c (t ++ [Step_Name st])%list (Some p) (world s))
        as [c1 w1] eqn:Hf.
      destruct (scoped t p l c1 w1) as [[evs1 c2] w2] eqn:Hrest.
      injection Hd as <- <- <-.
      unfold ret. simpl.
      rewrite (callStep_spec e _ st c _ env c1 w1); [|done|by rewrite Hp].
      rewrite (IH c1 _ evs1 c2 w2); [|done|done|done].
      do 2 f_equal. same_machine.
    + destruct (scoped t p l c (world s)) as [[evs1 c2] w2] eqn:Hrest.
      injection Hd as <- <- <-.
      unfold T_Skipf, bind, emit. simpl.
      rewrite (IH c _ evs1 c2 w2); [|done|done|done].
      do 2 f_equal. same_machine.
Qed.

Lemma direct_journal t cf l c w evs c' w' :
  direct t cf l c w = (evs, c', w') ->
  stepsCalled evs = map (pair t) l ∧ subtestsOpened evs = [] ∧ actionsRun evs = [].
Proof.
  revert c w evs c' w'. induction l as [|st l IH]; intros c w evs c' w' Hd; simpl in *.
  - by injection Hd as <- <- <-.
  - destruct (Step_Func st c t cf w) as [c1 w1].
    destruct (direct t cf l c1 w1) as [[evs1 c2] w2] eqn:Hrest.
    injection Hd as <- <- <-. destruct (IH _ _ _ _ _ Hrest) as (Hs & ? & ?).
    simpl. by rewrite Hs.
Qed.

Lemma scoped_journal t p l c w evs c' w' :
  scoped t p l c w = (evs, c', w') ->
  subtestsOpened evs = map (fun st => (t ++ [Step_Name st])%list) l
  ∧ sublist (stepsCalled evs) (map (fun st => ((t ++ [Step_Name st])%list, st)) l)
  ∧ actionsRun evs = [].
Proof.
  revert c w evs c' w'. induction l as [|st l IH]; intros c w evs c' w' Hd; simpl in *.
  - injection Hd as <- <- <-. repeat split. constructor.
  - destruct (passes AssessmentRegex p (Step_Name st) w).
    + destruct (Step_Func st c (t ++ [Step_Name st])%list (Some p) w) as [c1 w1].
      destruct (scoped t p l c1 w1) as [[evs1 c2] w2] eqn:Hrest.
      injection Hd as <- <- <-. destruct (IH _ _ _ _ _ Hrest) as (Hs & ? & ?).
      simpl. rewrite Hs. repeat split; [by constructor | done].
    + destruct (scoped t p l c w) as [[evs1 c2] w2] eqn:Hrest.
      injection Hd as <- <- <-. destruct (IH _ _ _ _ _ Hrest) as (Hs & ? & ?).
      simpl. rewrite Hs. repeat split; [by constructor | done].
Qed.

Lemma scoped_app t p l1 l2 c w :
  scoped t p (l1 ++ l2) c w =
    match scoped t p l1 c w with
    | (evs1, c1, w1) =>
        match scoped t p l2 c1 w1 with
        | (evs2, c2, w2) => ((evs1 ++ evs2)%list, c2, w2)
        end
    end.
Proof.
  revert c w. induction l1 as [|st l1 IH]; intros c w; simpl.
  - by destruct (scoped t p l2 c w) as [[evs2 c2] w2].
  - destruct (passes AssessmentRegex p (Step_Name st) w).
    + destruct (Step_Func st c (t ++ [Step_Name st])%list (Some p) w) as [c1 w1].
      rewrite IH. destruct (scoped t p l1 c1 w1) as [[evs1 c2] w2].
      by destruct (scoped t p l2 c2 w2) as [[evs2 c3] w3].
    + rewrite IH. destruct (scoped t p l1 c w) as [[evs1 c2] w2].
      by destruct (scoped t p l2 c2 w2) as [[evs2 c3] w3].
Qed.

Lemma direct_total t cf l c w : exists evs c' w', direct t cf l c w = (evs, c', w').
Proof. destruct (direct t cf l c w) as [[evs c'] w']. by eexists _, _, _. Qed.

Lemma scoped_total t p l c w : exists evs c' w', scoped t p l c w = (evs, c', w').
Proof. destruct (scoped t p l c w) as [[evs c'] w']. by eexists _, _, _. Qed.

(** ** execFeature *)

Lemma execFeature_skipped e c t f s env p :
  envs s !! e = Some env -> cfg env = Some p ->
  passes FeatureRegex p (Feature_Name f) (world s) = false ->
  execFeature e c t f s =
    (Done c, logged [EvSubtest (t ++ [Feature_Name f])%list;
                     EvSkipf (t ++ [Feature_Name f])%list (skipFeatureMsg (Feature_Name f))] s).
Proof.
  intros He Hp Hpass. unfold execFeature, T_Run, bind, lift, emit. simpl.
  rewrite (notMatched_spec FeatureRegex e _ _ env p); [|done|done]. simpl.
  rewrite Hpass. simpl. unfold T_Skipf, bind, emit. simpl.
  f_equal. same_machine.
Qed.

Lemma execFeature_runs e c t f s env p evS c1 w1 evA c2 w2 evT c3 w3 :
  envs s !! e = Some env -> cfg env = Some p ->
  passes FeatureRegex p (Feature_Name f) (world s) = true ->
  let ft := (t ++ [Feature_Name f])%list in
  direct ft (Some p) (GetStepsByLevel (Feature_Steps f) LevelSetup) c (world s) = (evS, c1, w1) ->
  scoped ft p (GetStepsByLevel (Feature_Steps f) LevelAssess) c1 w1 = (evA, c2, w2) ->
  direct ft (Some p) (GetStepsByLevel (Feature_Steps f) LevelTeardown) c2 w2 = (evT, c3, w3) ->
  execFeature e c t f s =
    (Done c3, setWorld w3 (logged (EvSubtest ft :: evS ++ evA ++ evT) s)).
Proof.
  intros He Hp Hpass ft HS HA HT. unfold execFeature, T_Run. unfold bind at 1. unfold lift at 1.
  unfold emit. simpl. unfold bind at 1. unfold lift at 1.
  rewrite (notMatched_spec FeatureRegex e _ _ env p); [|done|done]. simpl.
  rewrite Hpass. simpl. unfold bind at 1. unfold ret at 1. unfold bind at 1.
  rewrite (forEach_direct e ft _ c _ env evS c1 w1); [|done|by rewrite Hp].
  unfold bind at 1.
  rewrite (forEach_scoped e ft _ c1 _ env p evA c2 w2); [|done|done|done].
  rewrite (forEach_direct e ft _ c2 _ env evT c3 w3); [|done|by rewrite Hp].
  simpl. f_equal. same_machine.
Qed.

Lemma execFeature_nil_cfg e c t f s env :
  envs s !! e = Some env -> cfg env = None ->
  execFeature e c t f s
  = (Panic nilDereference, logged [EvSubtest (t ++ [Feature_Name f])%list] s).
Proof.
  intros He Hp. unfold execFeature, T_Run, bind, lift, emit. simpl.
  by rewrite (notMatched_nil_cfg FeatureRegex e _ _ env); [|done|done].
Qed.

(** Whatever the filters, a feature executed by an environment that has a
    configuration returns, and leaves the store of environments alone. *)
Lemma execFeature_returns e c t f s env p :
  envs s !! e = Some env -> cfg env = Some p ->
  exists c' w' evs, execFeature e c t f s = (Done c', setWorld w' (logged evs s)).
Proof.
  intros He Hp.
  destruct (passes FeatureRegex p (Feature_Name f) (world s)) eqn:Hpass.
  - destruct (direct_total (t ++ [Feature_Name f])%list (Some p)
                (GetStepsByLevel (Feature_Steps f) LevelSetup) c (world s))
      as (evS & c1 & w1 & HS).
    destruct (scoped_total (t ++ [Feature_Name f])%list p
                (GetStepsByLevel (Feature_Steps f) LevelAssess) c1 w1)
      as (evA & c2 & w2 & HA).
    destruct (direct_total (t ++ [Feature_Name f])%list (Some p)
                (GetStepsByLevel (Feature_Steps f) LevelTeardown) c2 w2)
      as (evT & c3 & w3 & HT).
    eexists _, _, _.
    by apply (execFeature_runs e c t f s env p evS c1 w1 evA c2 w2 evT c3 w3).
  - exists c, (world s), [EvSubtest (t ++ [Feature_Name f])%list;
                          EvSkipf (t ++ [Feature_Name f])%list
                            (skipFeatureMsg (Feature_Name f))].
    by rewrite (execFeature_skipped e c t f s env p).
Qed.

Lemma execFeature_Done_envs e c t f s env cF sF :
  envs s !! e = Some env ->
  execFeature e c t f s = (Done cF, sF) -> envs sF = envs s.
Proof.
  intros He Hx. destruct (cfg env) as [p|] eqn:Hp.
  - destruct (execFeature_returns e c t f s env p He Hp) as (c' & w' & evs & Hr).
    rewrite Hr in Hx. by injection Hx as <- <-.
  - by rewrite (execFeature_nil_cfg e c t f s env He Hp) in Hx.
Qed.

Lemma scoped_unfiltered t p l c w :
  (forall name w0, passes AssessmentRegex p name w0 = true) ->
  scoped t p l c w = scopedAll t (Some p) l c w.
Proof.
  intros Hall. revert c w. induction l as [|st l IH]; intros c w; simpl; [done|].
  rewrite Hall. destruct (Step_Func st c (t ++ [Step_Name st])%list (Some p) w) as [c1 w1].
  by rewrite IH.
Qed.

(** With no filter to reject a name, section 4.6 holds as it reads. *)
Lemma everyStepRuns_unfiltered e c t f s p :
  (forall env, envs s !! e = Some env -> cfg env = Some p) ->
  (forall name w0, passes FeatureRegex p name w0 = true) ->
  (forall name w0, passes AssessmentRegex p name w0 = true) ->
  everyStepRuns e c t f s.
Proof.
  intros Hcfg HF HA env evS c1 w1 evA c2 w2 evT c3 w3 He ft HS HAs HT.
  pose proof (Hcfg env He) as Hp. rewrite Hp in HS, HAs, HT.
  apply (execFeature_runs e c t f s env p evS c1 w1 evA c2 w2 evT c3 w3); try done.
  by rewrite scoped_unfiltered.
Qed.

(** C1, amended. A feature whose name the feature filter does not reject is
    executed in three levels.  Its Setup-level steps are called in the
    scope of the feature, in the order they have in the step list; then
    every Assess-level step, in that order, is given a sub-scope that bears
    its name, where it is called unless the assessment filter rejects the
    name; then the Teardown-level steps are called in the scope of the
    feature, in that order.  Each level starts from the context and the
    world the level before it ended with, and the context the last level
    ends with is returned. *)
Theorem execFeature_levels_in_order (e : loc) (c : Ctx) (t : T) (f : Feature) (s : machine)
    (env : testEnv) (p : Config) evS c1 w1 evA c2 w2 evT c3 w3 :
  envs s !! e = Some env -> cfg env = Some p ->
  passes FeatureRegex p (Feature_Name f) (world s) = true ->
  let ft := (t ++ [Feature_Name f])%list in
  let setups := GetStepsByLevel (Feature_Steps f) LevelSetup in
  let assessments := GetStepsByLevel (Feature_Steps f) LevelAssess in
  let teardowns := GetStepsByLevel (Feature_Steps f) LevelTeardown in
  direct ft (Some p) setups c (world s) = (evS, c1, w1) ->
  scoped ft p assessments c1 w1 = (evA, c2, w2) ->
  direct ft (Some p) teardowns c2 w2 = (evT, c3, w3) ->
  execFeature e c t f s
    = (Done c3, setWorld w3 (logged (EvSubtest ft :: evS ++ evA ++ evT) s))
  ∧ stepsCalled evS = map (pair ft) setups ∧ subtestsOpened evS = []
  ∧ subtestsOpened evA = map (fun st => (ft ++ [Step_Name st])%list) assessments
  ∧ sublist (stepsCalled evA) (map (fun st => ((ft ++ [Step_Name st])%list, st)) assessments)
  ∧ stepsCalled evT = map (pair ft) teardowns ∧ subtestsOpened evT = []
  ∧ sublist setups (Feature_Steps f)
  ∧ sublist assessments (Feature_Steps f)
  ∧ sublist teardowns (Feature_Steps f).
Proof.
  intros He Hp Hpass ft setups assessments teardowns HS HA HT.
  destruct (direct_journal _ _ _ _ _ _ _ _ HS) as (HS1 & HS2 & _).
  destruct (scoped_journal _ _ _ _ _ _ _ _ HA) as (HA1 & HA2 & _).
  destruct (direct_journal _ _ _ _ _ _ _ _ HT) as (HT1 & HT2 & _).
  split; [by apply (execFeature_runs e c t f s env p evS c1 w1 evA c2 w2 evT c3 w3)|].
  repeat split; try done; apply sublist_filter.
Qed.

(** C5. When the feature filter is set and does not match the name of the
    feature, the sub-scope of the feature is skipped and no step is called:
    the context and the world are untouched.  When the feature is executed,
    a Setup-level or Teardown-level step is called whatever its name and
    whatever the filters; each Assess-level step gets its sub-scope; and an
    assessment whose name the assessment filter rejects when its turn comes
    has its sub-scope skipped, the assessments before it and after it being
    dealt with as if it were not there. *)
Theorem filtering_by_name (e : loc) (c : Ctx) (t : T) (f : Feature) (s : machine)
    (env : testEnv) (p : Config) :
  envs s !! e = Some env -> cfg env = Some p ->
  let ft := (t ++ [Feature_Name f])%list in
  let setups := GetStepsByLevel (Feature_Steps f) LevelSetup in
  let assessments := GetStepsByLevel (Feature_Steps f) LevelAssess in
  let teardowns := GetStepsByLevel (Feature_Steps f) LevelTeardown in
  (forall re,
      FeatureRegex p (world s) = Some re -> MatchString re (Feature_Name f) = false ->
      let evs := [EvSubtest ft; EvSkipf ft (skipFeatureMsg (Feature_Name f))] in
      execFeature e c t f s = (Done c, logged evs s)
      ∧ stepsCalled evs = [] ∧ world (logged evs s) = world s)
  ∧ (forall evS c1 w1 evA c2 w2 evT c3 w3,
      passes FeatureRegex p (Feature_Name f) (world s) = true ->
      direct ft (Some p) setups c (world s) = (evS, c1, w1) ->
      scoped ft p assessments c1 w1 = (evA, c2, w2) ->
      direct ft (Some p) teardowns c2 w2 = (evT, c3, w3) ->
      execFeature e c t f s
        = (Done c3, setWorld w3 (logged (EvSubtest ft :: evS ++ evA ++ evT) s))
      ∧ stepsCalled evS = map (pair ft) setups
      ∧ stepsCalled evT = map (pair ft) teardowns
      ∧ (forall st, st ∈ Feature_Steps f -> Step_Level st ≠ LevelAssess ->
           (ft, st) ∈ stepsCalled (EvSubtest ft :: evS ++ evA ++ evT))
      ∧ subtestsOpened evA = map (fun st => (ft ++ [Step_Name st])%list) assessments
      ∧ (forall pre st post evP cP wP evQ cQ wQ re,
           assessments = (pre ++ st :: post)%list ->
           scoped ft p pre c1 w1 = (evP, cP, wP) ->
           AssessmentRegex p wP = Some re -> MatchString re (Step_Name st) = false ->
           scoped ft p post cP wP = (evQ, cQ, wQ) ->
           let ts := (ft ++ [Step_Name st])%list in
           evA = (evP ++ [EvSubtest ts; EvSkipf ts (skipAssessmentMsg (Step_Name st))]
                    ++ evQ)%list
           ∧ c2 = cQ ∧ w2 = wQ)).
Proof.
  intros He Hp ft setups assessments teardowns. split.
  - intros re Hre Hm evs. split; [|done].
    apply (execFeature_skipped e c t f s env p He Hp).
    apply passes_false. by exists re.
  - intros evS c1 w1 evA c2 w2 evT c3 w3 Hpass HS HA HT.
    destruct (direct_journal _ _ _ _ _ _ _ _ HS) as (HS1 & _ & _).
    destruct (scoped_journal _ _ _ _ _ _ _ _ HA) as (HA1 & _ & _).
    destruct (direct_journal _ _ _ _ _ _ _ _ HT) as (HT1 & _ & _).
    split; [by apply (execFeature_runs e c t f s env p evS c1 w1 evA c2 w2 evT c3 w3)|].
    split; [done|]. split; [done|]. split.
    { intros st Hst Hlv. simpl. rewrite !stepsCalled_app, HS1, HT1.
      destruct (Step_Level st) eqn:Hl; [|done|].
      - apply elem_of_app. left. apply list_elem_of_fmap. exists st. split; [done|].
        unfold setups, GetStepsByLevel. by apply list_elem_of_filter.
      - apply elem_of_app. right. apply elem_of_app. right.
        apply list_elem_of_fmap. exists st. split; [done|].
        unfold teardowns, GetStepsByLevel. by apply list_elem_of_filter. }
    split; [done|].
    intros pre st post evP cP wP evQ cQ wQ re Hsplit HP Hre Hm HQ ts.
    rewrite Hsplit, scoped_app, HP in HA. simpl in HA.
    assert (Hrej : passes AssessmentRegex p (Step_Name st) wP = false)
      by (apply passes_false; by exists re).
    rewrite Hrej, HQ in HA. by injection HA as <- <- <-.
Qed.

(** ** Test *)

Lemma Test_after_befores e t f s env evs c1 w1 :
  envs s !! e = Some env -> is_Some (ctx env) ->
  succeeds (cfg env) (byRole roleBefore (actions env)) (ctx env) (world s) = Some (evs, c1, w1) ->
  Test e t f s =
    match execFeature e c1 t f (settled e env c1 w1 evs s) with
    | (Done cF, sF) => afterPhase e t f (setEnvs (<[e := withCtx cF env]> (envs sF)) sF)
    | (Goexit, sF) => (Goexit, sF)
    | (OsExit n, sF) => (OsExit n, sF)
    | (Panic msg, sF) => (Panic msg, sF)
    end.
Proof.
  intros He [v Hv] Hs. unfold Test. unfold bind at 1. unfold deref at 1. rewrite He, Hv.
  unfold GetBeforeActions. unfold bind at 1. rewrite (getActionsByRole_spec e roleBefore s env He).
  unfold bind at 1.
  rewrite (forEach_succeeds e _ _ s env evs c1 w1 He Hs).
  unfold bind at 1. unfold deref at 1. rewrite settled_lookup. simpl ctx.
  unfold bind at 1.
  destruct (execFeature e c1 t f (settled e env c1 w1 evs s)) as [[cF| | |] sF] eqn:Hx; try done.
  assert (HsF : envs sF = envs (settled e env c1 w1 evs s))
    by (eapply execFeature_Done_envs; [apply settled_lookup | exact Hx]).
  unfold bind at 1. unfold setCtx, bind, deref. rewrite HsF, settled_lookup.
  unfold assign. simpl. unfold afterPhase. rewrite HsF. reflexivity.
Qed.

Lemma Test_before_fails e t f s env pre a post evs c1 w1 c2 msg w2 :
  envs s !! e = Some env -> is_Some (ctx env) ->
  byRole roleBefore (actions env) = (pre ++ a :: post)%list ->
  succeeds (cfg env) pre (ctx env) (world s) = Some (evs, c1, w1) ->
  run a c1 (cfg env) w1 = ((c2, Some msg), w2) ->
  Test e t f s =
    (Goexit, settled e env c2 w2
       (evs ++ [EvRunAction a c1;
                EvFatalf t ("BeforeTest failure: " ++ Feature_Name f ++ ": " ++ msg)]) s).
Proof.
  intros He [v Hv] Hsplit Hs Hrun. unfold Test. unfold bind at 1. unfold deref at 1.
  rewrite He, Hv.
  unfold GetBeforeActions. unfold bind at 1. rewrite (getActionsByRole_spec e roleBefore s env He).
  unfold bind at 1. rewrite Hsplit.
  rewrite (forEach_fails e _ pre a post s env evs c1 w1 c2 msg w2 He Hs Hrun).
  unfold T_Fatalf, bind, emit. simpl. f_equal. same_machine.
Qed.

Lemma afterPhase_fails e t f s env pre a post evs c1 w1 c2 msg w2 :
  envs s !! e = Some env ->
  byRole roleAfter (actions env) = (pre ++ a :: post)%list ->
  succeeds (cfg env) pre (ctx env) (world s) = Some (evs, c1, w1) ->
  run a c1 (cfg env) w1 = ((c2, Some msg), w2) ->
  afterPhase e t f s =
    (Goexit, settled e env c2 w2
       (evs ++ [EvRunAction a c1;
                EvFatalf t ("AfterTest failure: " ++ Feature_Name f ++ ": " ++ msg)]) s).
Proof.
  intros He Hsplit Hs Hrun. unfold afterPhase, GetAfterActions. unfold bind at 1.
  rewrite (getActionsByRole_spec e roleAfter s env He). rewrite Hsplit.
  rewrite (forEach_fails e _ pre a post s env evs c1 w1 c2 msg w2 He Hs Hrun).
  unfold T_Fatalf, bind, emit. simpl. f_equal. same_machine.
Qed.

Lemma afterPhase_succeeds e t f s env evs c1 w1 :
  envs s !! e = Some env ->
  succeeds (cfg env) (byRole roleAfter (actions env)) (ctx env) (world s) = Some (evs, c1, w1) ->
  afterPhase e t f s = (Done tt, settled e env c1 w1 evs s).
Proof.
  intros He Hs. unfold afterPhase, GetAfterActions. unfold bind at 1.
  rewrite (getActionsByRole_spec e roleAfter s env He).
  by rewrite (forEach_succeeds e _ _ s env evs c1 w1 He Hs).
Qed.

Lemma afterPhase_begins e t f s env a rest :
  envs s !! e = Some env ->
  byRole roleAfter (actions env) = a :: rest ->
  exists o s' evs,
    afterPhase e t f s = (o, s')
    ∧ journal s' = (journal s ++ EvRunAction a (ctx env) :: evs)%list.
Proof.
  intros He Hsplit.
  destruct (succeeds_or_fails (cfg env) (a :: rest) (ctx env) (world s))
    as [(evs & c' & w' & Hs)
       |(pre & b & post & evs & c1 & w1 & c2 & msg & w2 & Hl & Hs & Hb)].
  - rewrite <- Hsplit in Hs.
    rewrite (afterPhase_succeeds e t f s env evs c' w' He Hs).
    rewrite Hsplit in Hs. simpl in Hs.
    destruct (run a (ctx env) (cfg env) (world s)) as [[c1 [msg|]] w1]; [done|].
    destruct (succeeds (cfg env) rest c1 w1) as [[[evs1 c2] w2]|]; [|done].
    injection Hs as <- <- <-. by eexists _, _, _.
  - rewrite Hl in Hsplit.
    rewrite (afterPhase_fails e t f s env pre b post evs c1 w1 c2 msg w2 He Hsplit Hs Hb).
    destruct pre as [|x pre]; simpl in Hl, Hs.
    + injection Hl as <- <-. injection Hs as <- <- <-. by eexists _, _, _.
    + injection Hl as <- ->.
      destruct (run a (ctx env) (cfg env) (world s)) as [[c3 [msg3|]] w3]; [done|].
      destruct (succeeds (cfg env) pre c3 w3) as [[[evs1 c4] w4]|]; [|done].
      injection Hs as <- <- <-. simpl. by eexists _, _, _.
Qed.

(** C4. When a Before action fails after the ones before it succeeded, Test
    reports the failure against its scope, with a message that names the
    feature and gives the error, and ends there: the actions run are the
    Before actions up to the failing one and no other, no sub-scope is opened
    and no step is called.  When the Before actions have succeeded and the
    feature has been executed, an After action that fails after the ones
    before it succeeded ends Test in the same way: no After action is run
    after it. *)
Theorem Test_fails_fast (e : loc) (t : T) (f : Feature) (s : machine) (env : testEnv) :
  envs s !! e = Some env -> is_Some (ctx env) ->
  (forall pre a post evs c1 w1 c2 msg w2,
      byRole roleBefore (actions env) = (pre ++ a :: post)%list ->
      succeeds (cfg env) pre (ctx env) (world s) = Some (evs, c1, w1) ->
      run a c1 (cfg env) w1 = ((c2, Some msg), w2) ->
      let report := EvFatalf t ("BeforeTest failure: " ++ Feature_Name f ++ ": " ++ msg) in
      let done := (evs ++ [EvRunAction a c1; report])%list in
      Test e t f s = (Goexit, settled e env c2 w2 done s)
      ∧ actionsRun done = (pre ++ [a])%list
      ∧ Forall (fun b => role b = roleBefore) (actionsRun done)
      ∧ stepsCalled done = [] ∧ subtestsOpened done = [])
  ∧ (forall evsB cB wB cF sF pre a post evs c1 w1 c2 msg w2,
      succeeds (cfg env) (byRole roleBefore (actions env)) (ctx env) (world s)
        = Some (evsB, cB, wB) ->
      execFeature e cB t f (settled e env cB wB evsB s) = (Done cF, sF) ->
      byRole roleAfter (actions env) = (pre ++ a :: post)%list ->
      succeeds (cfg env) pre cF (world sF) = Some (evs, c1, w1) ->
      run a c1 (cfg env) w1 = ((c2, Some msg), w2) ->
      let report := EvFatalf t ("AfterTest failure: " ++ Feature_Name f ++ ": " ++ msg) in
      let done := (evs ++ [EvRunAction a c1; report])%list in
      Test e t f s = (Goexit, settled e env c2 w2 done sF)
      ∧ actionsRun done = (pre ++ [a])%list
      ∧ Forall (fun b => role b = roleAfter) (actionsRun done)).
Proof.
  intros He Hc. split.
  - intros pre a post evs c1 w1 c2 msg w2 Hsplit Hs Hrun report done.
    destruct (succeeds_journal _ _ _ _ _ _ _ Hs) as (Hacts & Hsteps & Hsub & _).
    assert (Hdone : actionsRun done = (pre ++ [a])%list).
    { unfold done. rewrite actionsRun_app, Hacts. reflexivity. }
    split; [by apply (Test_before_fails e t f s env pre a post evs c1 w1)|].
    split; [exact Hdone|].
    split.
    { rewrite Hdone. pose proof (byRole_role roleBefore (actions env)) as Hall.
      rewrite Hsplit in Hall. apply Forall_app in Hall as [Hp Ha].
      apply Forall_app. split; [done|].
      apply Forall_cons in Ha as [Ha _]. by apply Forall_singleton. }
    unfold done. by rewrite stepsCalled_app, subtestsOpened_app, Hsteps, Hsub.
  - intros evsB cB wB cF sF pre a post evs c1 w1 c2 msg w2 HB Hx Hsplit Hs Hrun report done.
    destruct (succeeds_journal _ _ _ _ _ _ _ Hs) as (Hacts & _ & _ & _).
    assert (Hdone : actionsRun done = (pre ++ [a])%list).
    { unfold done. rewrite actionsRun_app, Hacts. reflexivity. }
    split.
    { rewrite (Test_after_befores e t f s env evsB cB wB He Hc HB), Hx.
      rewrite (afterPhase_fails e t f _ (withCtx cF env) pre a post evs c1 w1 c2 msg w2);
        [|apply lookup_insert_eq|done|done|done].
      f_equal. same_machine. }
    split; [exact Hdone|].
    rewrite Hdone. pose proof (byRole_role roleAfter (actions env)) as Hall.
    rewrite Hsplit in Hall. apply Forall_app in Hall as [Hp Ha].
    apply Forall_app. split; [done|].
    apply Forall_cons in Ha as [Ha _]. by apply Forall_singleton.
Qed.

(** C10. When the feature filter is set and does not match the name of the
    feature, execFeature returns the context it was given: the sub-scope of
    the feature is opened and skipped, and neither the world nor the
    environments change.  In Test, the After actions then start from the
    context the Before actions ended with: the first of them is run on it. *)
Theorem skipped_feature_keeps_context (e : loc) (c : Ctx) (t : T) (f : Feature)
    (s : machine) (env : testEnv) (p : Config) :
  envs s !! e = Some env -> cfg env = Some p ->
  let ft := (t ++ [Feature_Name f])%list in
  let skip := [EvSubtest ft; EvSkipf ft (skipFeatureMsg (Feature_Name f))] in
  (forall re,
      FeatureRegex p (world s) = Some re -> MatchString re (Feature_Name f) = false ->
      execFeature e c t f s = (Done c, logged skip s))
  ∧ (forall evsB cB wB re,
      is_Some (ctx env) ->
      succeeds (cfg env) (byRole roleBefore (actions env)) (ctx env) (world s)
        = Some (evsB, cB, wB) ->
      FeatureRegex p wB = Some re -> MatchString re (Feature_Name f) = false ->
      let s1 := settled e env cB wB (evsB ++ skip) s in
      Test e t f s = afterPhase e t f s1
      ∧ envs s1 !! e = Some (withCtx cB env)
      ∧ world s1 = wB
      ∧ (forall a rest,
           byRole roleAfter (actions env) = a :: rest ->
           exists o s' evs,
             Test e t f s = (o, s')
             ∧ journal s' = (journal s ++ evsB ++ skip ++ EvRunAction a cB :: evs)%list)).
Proof.
  intros He Hp ft skip. split.
  - intros re Hre Hm. apply (execFeature_skipped e c t f s env p He Hp).
    apply passes_false. by exists re.
  - intros evsB cB wB re Hc HB Hre Hm s1.
    assert (HT : Test e t f s = afterPhase e t f s1).
    { rewrite (Test_after_befores e t f s env evsB cB wB He Hc HB).
      rewrite (execFeature_skipped e cB t f _ (withCtx cB env) p);
        [|apply settled_lookup|done|].
      - f_equal. unfold s1. same_machine.
      - apply passes_false. by exists re. }
    split; [exact HT|]. split; [apply settled_lookup|]. split; [done|].
    intros a rest Hafter.
    destruct (afterPhase_begins e t f s1 (withCtx cB env) a rest)
      as (o & s' & evs & Hrun & Hj); [apply settled_lookup|done|].
    exists o, s', evs. split; [by rewrite HT|].
    rewrite Hj. simpl. by rewrite <- !app_assoc.
Qed.

(** ** Environments made through the interface *)

Lemma nonNilCtx_pristine (s : machine) : pristine s -> nonNilCtx s.
Proof. intros Hs e env He. rewrite Hs in He. by rewrite lookup_empty in He. Qed.

Lemma nonNilCtx_insert e env (s : machine) :
  nonNilCtx s -> is_Some (ctx env) -> nonNilCtx (setEnvs (<[e := env]> (envs s)) s).
Proof.
  intros Hs Hc e' env' He'. simpl in He'.
  destruct (decide (e = e')) as [->|Hne].
  - rewrite lookup_insert_eq in He'. by injection He' as <-.
  - rewrite lookup_insert_ne in He' by done. by eapply Hs.
Qed.

Lemma nonNilCtx_world w (s : machine) : nonNilCtx s -> nonNilCtx (setWorld w s).
Proof. intros Hs e env He. by eapply Hs. Qed.

Lemma newTestEnv_keeps (s : machine) :
  nonNilCtx s ->
  exists e s', newTestEnv s = (Done e, s') ∧ nonNilCtx s'
    ∧ exists env, envs s' !! e = Some env ∧ is_Some (ctx env).
Proof.
  intros Hs. unfold newTestEnv, bind, call.
  destruct (envconf_New (world s)) as [p w] eqn:Hn. simpl.
  eexists _, _. split; [reflexivity|]. split.
  - apply (nonNilCtx_insert _ _ (setWorld w s)); [by apply nonNilCtx_world | by eexists].
  - eexists. split; [apply lookup_insert_eq | by eexists].
Qed.

Lemma register_keeps r e fs (s s' : machine) e' :
  nonNilCtx s -> register r e fs s = (Done e', s') -> nonNilCtx s'.
Proof.
  intros Hs Hr. destruct fs as [|f fs].
  - rewrite register_nil in Hr. by injection Hr as <- <-.
  - destruct (envs s !! e) as [env|] eqn:He.
    + rewrite (register_spec r e (f :: fs) s env He) in Hr by done.
      injection Hr as <- <-. apply nonNilCtx_insert; [done|]. simpl. by eapply Hs.
    + destruct r; simpl in Hr;
        unfold Setup, BeforeTest, AfterTest, Finish, appendAction, bind, deref in Hr;
        simpl in Hr; by rewrite He in Hr.
Qed.

Lemma perform_keeps k (s s' : machine) :
  nonNilCtx s -> perform k s = (Done tt, s') -> nonNilCtx s'.
Proof.
  intros Hs Hk. destruct k as [|cf|c cf|e c|e fs|e fs|e fs|e fs]; simpl in Hk;
    unfold discard, bind in Hk.
  - destruct (newTestEnv_keeps s Hs) as (e & s1 & Hn & Hs1 & _).
    unfold New in Hk. rewrite Hn in Hk. by injection Hk as <-.
  - destruct (newTestEnv_keeps s Hs) as (e & s1 & Hn & Hs1 & env & He & Hc).
    unfold NewWithConfig, bind, deref in Hk. rewrite Hn, He in Hk. simpl in Hk.
    injection Hk as <-. by apply nonNilCtx_insert.
  - unfold NewWithContext in Hk. destruct c as [v|]; [|by injection Hk as <-].
    destruct cf as [p|]; [|by injection Hk as <-].
    unfold bind, alloc in Hk. simpl in Hk. injection Hk as <-.
    apply nonNilCtx_insert; [done | by eexists].
  - destruct c as [v|]; [|done].
    destruct (envs s !! e) as [env|] eqn:He.
    + destruct (WithContext_spec e (Some v) s env He) as (e' & Hw & _); [by eexists|].
      rewrite Hw in Hk. injection Hk as <-. apply nonNilCtx_insert; [done | by eexists].
    + unfold WithContext, bind, deref in Hk. by rewrite He in Hk.
  - destruct (Setup e fs s) as [[e'| | |] s1] eqn:Hr; try done.
    injection Hk as <-. by apply (register_keeps roleSetup e fs s s1 e').
  - destruct (BeforeTest e fs s) as [[e'| | |] s1] eqn:Hr; try done.
    injection Hk as <-. by apply (register_keeps roleBefore e fs s s1 e').
  - destruct (AfterTest e fs s) as [[e'| | |] s1] eqn:Hr; try done.
    injection Hk as <-. by apply (register_keeps roleAfter e fs s s1 e').
  - destruct (Finish e fs s) as [[e'| | |] s1] eqn:Hr; try done.
    injection Hk as <-. by apply (register_keeps roleFinish e fs s s1 e').
Qed.

Lemma performAll_keeps ks (s s' : machine) :
  nonNilCtx s -> forEach ks perform s = (Done tt, s') -> nonNilCtx s'.
Proof.
  revert s. induction ks as [|k ks IH]; intros s Hs Hk; simpl in Hk.
  - by injection Hk as <-.
  - unfold bind in Hk. destruct (perform k s) as [[[]| | |] s1] eqn:Hp; try done.
    eapply IH; [|exact Hk]. by eapply perform_keeps.
Qed.

(** The panics Run and Test can end with, past the check of the context. *)
Lemma Run_panics e m s env msg s' :
  envs s !! e = Some env -> is_Some (ctx env) ->
  Run e m s = (Panic msg, s') -> msg = nilDereference.
Proof.
  intros He Hc Hr.
  destruct (succeeds_or_fails (cfg env) (byRole roleSetup (actions env)) (ctx env) (world s))
    as [(evs & c' & w' & Hs)
       |(pre & b & post & evs & c1 & w1 & c2 & msg' & w2 & Hl & Hs & Hb)].
  - rewrite (Run_after_setups e m s env evs c' w' He Hc Hs) in Hr.
    destruct (mRun m _) as [code s2]. destruct (envs s2 !! e) as [env2|].
    + by destruct (bestEffort _ _ _ _) as [[evsF cF] wF].
    + by injection Hr as <- <-.
  - by rewrite (Run_setup_fails e m s env pre b post evs c1 w1 c2 msg' w2 He Hc Hl Hs Hb) in Hr.
Qed.

Lemma afterPhase_panics e t f s env msg s' :
  envs s !! e = Some env -> afterPhase e t f s = (Panic msg, s') -> False.
Proof.
  intros He Hr.
  destruct (succeeds_or_fails (cfg env) (byRole roleAfter (actions env)) (ctx env) (world s))
    as [(evs & c' & w' & Hs)
       |(pre & b & post & evs & c1 & w1 & c2 & msg' & w2 & Hl & Hs & Hb)].
  - by rewrite (afterPhase_succeeds e t f s env evs c' w' He Hs) in Hr.
  - by rewrite (afterPhase_fails e t f s env pre b post evs c1 w1 c2 msg' w2 He Hl Hs Hb) in Hr.
Qed.

Lemma Test_panics e t f s env msg s' :
  envs s !! e = Some env -> is_Some (ctx env) ->
  Test e t f s = (Panic msg, s') -> msg = nilDereference.
Proof.
  intros He Hc Hr.
  destruct (succeeds_or_fails (cfg env) (byRole roleBefore (actions env)) (ctx env) (world s))
    as [(evs & c' & w' & Hs)
       |(pre & b & post & evs & c1 & w1 & c2 & msg' & w2 & Hl & Hs & Hb)].
  - rewrite (Test_after_befores e t f s env evs c' w' He Hc Hs) in Hr.
    destruct (cfg env) as [p|] eqn:Hp.
    + destruct (execFeature_returns e c' t f (settled e env c' w' evs s) (withCtx c' env) p)
        as (cF & wF & evsF & Hx); [apply settled_lookup|done|].
      rewrite Hx in Hr. exfalso.
      eapply (afterPhase_panics e t f _ (withCtx cF env)); [|exact Hr].
      apply lookup_insert_eq.
    + rewrite (execFeature_nil_cfg e c' t f _ (withCtx c' env)) in Hr;
        [|apply settled_lookup|done].
      by injection Hr as <- <-.
  - by rewrite (Test_before_fails e t f s env pre b post evs c1 w1 c2 msg' w2 He Hc Hl Hs Hb)
      in Hr.
Qed.

(** C9. On a machine reached from one without environments by calls of the
    constructors, of WithContext and of the four registration methods, all
    of which returned, every environment carries a context that is not
    nil; Run and Test on such an environment do not end with the panic of
    their first check. *)
Theorem public_environments_carry_context (ks : list apiCall) (s0 s : machine)
    (e : loc) (env : testEnv) :
  pristine s0 -> forEach ks perform s0 = (Done tt, s) -> envs s !! e = Some env ->
  is_Some (ctx env)
  ∧ (forall m, (Run e m s).1 ≠ Panic "context not set")
  ∧ (forall t f, (Test e t f s).1 ≠ Panic "context not set").
Proof.
  intros H0 Hks He.
  assert (Hc : is_Some (ctx env)).
  { eapply performAll_keeps; [by apply nonNilCtx_pristine | exact Hks | exact He]. }
  split; [exact Hc|]. split.
  - intros m Hp. destruct (Run e m s) as [o s'] eqn:Hr. simpl in Hp. subst o.
    by apply (Run_panics e m s env _ s' He Hc) in Hr.
  - intros t f Hp. destruct (Test e t f s) as [o s'] eqn:Hr. simpl in Hp. subst o.
    by apply (Test_panics e t f s env _ s' He Hc) in Hr.
Qed.

End Facts.

(** * The theorems at work on the small suite *)

Section Witnesses.

Import Demo.
#[local] Existing Instance Demo.harness.

Local Abbreviation e1 := (1%positive : loc).
Local Abbreviation TestX := (["TestX"] : T).

(** C1 as it reads fails on a feature the feature filter rejects, where no
    step is called, and on a feature one assessment of which the assessment
    filter rejects, where the step of that assessment is not called. *)
Lemma execFeature_filters_drop_steps :
  (¬ everyStepRuns e1 (Some 0) TestX F (boot (env0 onlyG []))
   ∧ execFeature e1 (Some 0) TestX F (boot (env0 onlyG []))
     = (Done (Some 0),
        logged [EvSubtest ["TestX"; "F"]; EvSkipf ["TestX"; "F"] (skipFeatureMsg "F")]
          (boot (env0 onlyG []))))
  ∧ (¬ everyStepRuns e1 (Some 0) TestX F (boot (env0 onlyB []))
     ∧ stepsCalled (journal (execFeature e1 (Some 0) TestX F (boot (env0 onlyB []))).2)
       = [(["TestX"; "F"], step "s" LevelSetup);
          (["TestX"; "F"; "b"], step "b" LevelAssess);
          (["TestX"; "F"], step "t" LevelTeardown)]).
Proof.
  split; (split; [intros Hall | reflexivity]).
  - specialize (Hall (env0 onlyG []) _ _ _ _ _ _ _ _ _ eq_refl eq_refl eq_refl eq_refl).
    vm_compute in Hall. discriminate Hall.
  - specialize (Hall (env0 onlyB []) _ _ _ _ _ _ _ _ _ eq_refl eq_refl eq_refl eq_refl).
    vm_compute in Hall. discriminate Hall.
Qed.

Lemma execFeature_levels_in_order_witness :
  execFeature e1 (Some 0) TestX F (boot (env0 onlyB []))
  = (Done (Some 3),
     setWorld 3
       (logged
          [EvSubtest ["TestX"; "F"];
           EvStep ["TestX"; "F"] (step "s" LevelSetup) (Some 0);
           EvSubtest ["TestX"; "F"; "a"];
           EvSkipf ["TestX"; "F"; "a"] (skipAssessmentMsg "a");
           EvSubtest ["TestX"; "F"; "b"];
           EvStep ["TestX"; "F"; "b"] (step "b" LevelAssess) (Some 1);
           EvStep ["TestX"; "F"] (step "t" LevelTeardown) (Some 2)]
          (boot (env0 onlyB [])))).
Proof.
  apply (execFeature_levels_in_order (H := harness) e1 (Some 0) TestX F (boot (env0 onlyB []))
           (env0 onlyB []) onlyB
           [EvStep ["TestX"; "F"] (step "s" LevelSetup) (Some 0)] (Some 1) 1
           [EvSubtest ["TestX"; "F"; "a"];
            EvSkipf ["TestX"; "F"; "a"] (skipAssessmentMsg "a");
            EvSubtest ["TestX"; "F"; "b"];
            EvStep ["TestX"; "F"; "b"] (step "b" LevelAssess) (Some 1)] (Some 2) 2
           [EvStep ["TestX"; "F"] (step "t" LevelTeardown) (Some 2)] (Some 3) 3);
    reflexivity.
Defined.

Lemma Run_setup_failure_aborts_witness :
  Run e1 m0 (boot (env0 unfiltered (failing roleSetup)))
  = (OsExit 1,
     settled e1 (env0 unfiltered (failing roleSetup)) (Some 1) 101
       [EvRunAction (act roleSetup bump) (Some 0);
        EvRunAction (act roleSetup boom) (Some 1);
        EvLogFatal "boom"]
       (boot (env0 unfiltered (failing roleSetup))))
  ∧ Run e1 m1 (boot (env0 unfiltered suite)) = Run e1 m0 (boot (env0 unfiltered suite)).
Proof.
  split.
  - destruct (Run_setup_failure_aborts (H := harness) e1 m0
                (boot (env0 unfiltered (failing roleSetup)))
                (env0 unfiltered (failing roleSetup)) eq_refl (ex_intro _ 0 eq_refl))
      as [_ Hfail].
    destruct (Hfail [act roleSetup bump] (act roleSetup boom) [act roleSetup bump]
                [EvRunAction (act roleSetup bump) (Some 0)] (Some 1) 1 (Some 1) "boom" 101
                eq_refl eq_refl eq_refl) as [Hrun _].
    exact Hrun.
  - destruct (Run_setup_failure_aborts (H := harness) e1 m0
                (boot (env0 unfiltered suite)) (env0 unfiltered suite)
                eq_refl (ex_intro _ 0 eq_refl))
      as [Hsame _].
    exact (Hsame [EvRunAction (act roleSetup bump) (Some 0)] (Some 1) 1 m1 eq_refl eq_refl).
Defined.

Lemma Run_finish_best_effort_witness :
  Run e1 m0 (boot (env0 unfiltered suite))
  = (Done 7%Z,
     settled e1 (withCtx (Some 1) (env0 unfiltered suite)) (Some 2) 102
       [EvRunAction (act roleFinish boom) (Some 1);
        EvLogPrintln "boom";
        EvRunAction (act roleFinish bump) (Some 1)]
       (logged [EvMRun]
          (settled e1 (env0 unfiltered suite) (Some 1) 1
             [EvRunAction (act roleSetup bump) (Some 0)]
             (boot (env0 unfiltered suite)))))
  ∧ actionsRun
      [EvRunAction (act roleFinish boom) (Some 1);
       EvLogPrintln "boom";
       EvRunAction (act roleFinish bump) (Some 1)]
    = [act roleFinish boom; act roleFinish bump]
  ∧ actionsRun [EvRunAction (act roleFinish bump) (Some 1)] = [act roleFinish bump].
Proof.
  destruct (Run_finish_best_effort (H := harness) e1 m0 (boot (env0 unfiltered suite))
              (env0 unfiltered suite)
              [EvRunAction (act roleSetup bump) (Some 0)] (Some 1) 1 7%Z
              (logged [EvMRun]
                 (settled e1 (env0 unfiltered suite) (Some 1) 1
                    [EvRunAction (act roleSetup bump) (Some 0)]
                    (boot (env0 unfiltered suite))))
              (withCtx (H := harness) (Some 1) (env0 unfiltered suite))
              [EvRunAction (act roleFinish boom) (Some 1);
               EvLogPrintln "boom";
               EvRunAction (act roleFinish bump) (Some 1)] (Some 2) 102
              eq_refl (ex_intro _ 0 eq_refl) eq_refl eq_refl eq_refl eq_refl)
    as (Hrun & Hall & Hnext).
  split; [exact Hrun|]. split; [exact Hall|].
  destruct (Hnext [] (act roleFinish boom) [act roleFinish bump]
              [] (Some 1) 1 (Some 1) "boom" 101
              [EvRunAction (act roleFinish bump) (Some 1)] (Some 2) 102
              eq_refl eq_refl eq_refl eq_refl) as (_ & Hpost & _).
  exact Hpost.
Defined.

Lemma Test_fails_fast_witness :
  Test e1 TestX F (boot (env0 unfiltered (failing roleBefore)))
  = (Goexit,
     settled e1 (env0 unfiltered (failing roleBefore)) (Some 1) 101
       [EvRunAction (act roleBefore bump) (Some 0);
        EvRunAction (act roleBefore boom) (Some 1);
        EvFatalf TestX "BeforeTest failure: F: boom"]
       (boot (env0 unfiltered (failing roleBefore))))
  ∧ (Test e1 TestX F (boot (env0 onlyG (failing roleAfter)))).1 = Goexit.
Proof.
  split.
  - destruct (Test_fails_fast (H := harness) e1 TestX F
                (boot (env0 unfiltered (failing roleBefore)))
                (env0 unfiltered (failing roleBefore)) eq_refl (ex_intro _ 0 eq_refl))
      as [Hbefore _].
    destruct (Hbefore [act roleBefore bump] (act roleBefore boom) [act roleBefore bump]
                [EvRunAction (act roleBefore bump) (Some 0)] (Some 1) 1 (Some 1) "boom" 101
                eq_refl eq_refl eq_refl) as [Hrun _].
    exact Hrun.
  - destruct (Test_fails_fast (H := harness) e1 TestX F
                (boot (env0 onlyG (failing roleAfter)))
                (env0 onlyG (failing roleAfter)) eq_refl (ex_intro _ 0 eq_refl))
      as [_ Hafter].
    destruct (Hafter [] (Some 0) 0 (Some 0)
                (logged [EvSubtest ["TestX"; "F"];
                         EvSkipf ["TestX"; "F"] (skipFeatureMsg "F")]
                   (settled e1 (env0 onlyG (failing roleAfter)) (Some 0) 0 []
                      (boot (env0 onlyG (failing roleAfter)))))
                [act roleAfter bump] (act roleAfter boom) [act roleAfter bump]
                [EvRunAction (act roleAfter bump) (Some 0)] (Some 1) 1 (Some 1) "boom" 101
                eq_refl eq_refl eq_refl eq_refl eq_refl) as [Hrun _].
    rewrite Hrun. reflexivity.
Defined.

Lemma filtering_by_name_witness :
  execFeature e1 (Some 0) TestX F (boot (env0 onlyG []))
  = (Done (Some 0),
     logged [EvSubtest ["TestX"; "F"]; EvSkipf ["TestX"; "F"] (skipFeatureMsg "F")]
       (boot (env0 onlyG [])))
  ∧ (execFeature e1 (Some 0) TestX F (boot (env0 onlyB []))).1 = Done (Some 3)
  ∧ [EvSubtest ["TestX"; "F"; "a"];
     EvSkipf ["TestX"; "F"; "a"] (skipAssessmentMsg "a");
     EvSubtest ["TestX"; "F"; "b"];
     EvStep ["TestX"; "F"; "b"] (step "b" LevelAssess) (Some 1)]
    = ([] ++ [EvSubtest ["TestX"; "F"; "a"];
              EvSkipf ["TestX"; "F"; "a"] (skipAssessmentMsg "a")]
          ++ [EvSubtest ["TestX"; "F"; "b"];
              EvStep ["TestX"; "F"; "b"] (step "b" LevelAssess) (Some 1)])%list.
Proof.
  split.
  - destruct (filtering_by_name (H := harness) e1 (Some 0) TestX F (boot (env0 onlyG []))
                (env0 onlyG []) onlyG eq_refl eq_refl) as [Hskip _].
    destruct (Hskip (only "G") eq_refl eq_refl) as [Hrun _]. exact Hrun.
  - destruct (filtering_by_name (H := harness) e1 (Some 0) TestX F (boot (env0 onlyB []))
                (env0 onlyB []) onlyB eq_refl eq_refl) as [_ Hexec].
    destruct (Hexec
                [EvStep ["TestX"; "F"] (step "s" LevelSetup) (Some 0)] (Some 1) 1
                [EvSubtest ["TestX"; "F"; "a"];
                 EvSkipf ["TestX"; "F"; "a"] (skipAssessmentMsg "a");
                 EvSubtest ["TestX"; "F"; "b"];
                 EvStep ["TestX"; "F"; "b"] (step "b" LevelAssess) (Some 1)] (Some 2) 2
                [EvStep ["TestX"; "F"] (step "t" LevelTeardown) (Some 2)] (Some 3) 3
                eq_refl eq_refl eq_refl eq_refl) as (Hrun & _ & _ & _ & _ & Hrejected).
    split; [rewrite Hrun; reflexivity|].
    destruct (Hrejected [] (step "a" LevelAssess) [step "b" LevelAssess]
                [] (Some 1) 1
                [EvSubtest ["TestX"; "F"; "b"];
                 EvStep ["TestX"; "F"; "b"] (step "b" LevelAssess) (Some 1)] (Some 2) 2
                (only "b") eq_refl eq_refl eq_refl eq_refl eq_refl) as (Hsplit & _ & _).
    exact Hsplit.
Defined.

Lemma registration_appends_one_action_witness :
  register roleSetup e1 [bump] (boot (env0 unfiltered suite))
  = (Done e1,
     setEnvs (<[e1 := withAction (act roleSetup bump) (env0 unfiltered suite)]>
                (envs (boot (env0 unfiltered suite))))
       (boot (env0 unfiltered suite))).
Proof.
  apply (registration_appends_one_action (H := harness) roleSetup e1 [bump]
           (boot (env0 unfiltered suite)) (env0 unfiltered suite)).
  - reflexivity.
  - discriminate.
Defined.

Lemma WithContext_derives_a_copy_witness :
  WithContext e1 None (boot (env0 unfiltered suite))
  = (Panic "nil context", boot (env0 unfiltered suite))
  ∧ exists e' s',
      WithContext e1 (Some 5) (boot (env0 unfiltered suite)) = (Done e', s')
      ∧ envs s' !! e' = Some {| ctx := Some 5; cfg := Some unfiltered; actions := suite |}
      ∧ envs s' !! e1 = Some (env0 unfiltered suite).
Proof.
  destruct (WithContext_derives_a_copy (H := harness) e1 (Some 5)
              (boot (env0 unfiltered suite)) (env0 unfiltered suite)
              eq_refl (ex_intro _ 5 eq_refl))
    as [(e' & s' & Hrun & _ & Hnew & Hold & _) Hnil].
  split; [exact Hnil|].
  exists e', s'. split; [exact Hrun|]. split; [exact Hnew | exact Hold].
Defined.

Lemma public_environments_carry_context_witness :
  is_Some (ctx (env0 unfiltered [act roleSetup bump]))
  ∧ (Run e1 m0 (forEach calls perform empty).2).1 ≠ Panic "context not set".
Proof.
  destruct (public_environments_carry_context (H := harness) calls empty
              (forEach calls perform empty).2 e1 (env0 unfiltered [act roleSetup bump]))
    as (Hctx & HRun & _).
  - reflexivity.
  - vm_compute. reflexivity.
  - vm_compute. reflexivity.
  - split; [exact Hctx | exact (HRun m0)].
Defined.

Lemma skipped_feature_keeps_context_witness :
  execFeature e1 (Some 9) TestX F (boot (env0 onlyG suite))
  = (Done (Some 9),
     logged [EvSubtest ["TestX"; "F"]; EvSkipf ["TestX"; "F"] (skipFeatureMsg "F")]
       (boot (env0 onlyG suite)))
  ∧ Test e1 TestX F (boot (env0 onlyG suite))
    = afterPhase e1 TestX F
        (settled e1 (env0 onlyG suite) (Some 1) 1
           [EvRunAction (act roleBefore bump) (Some 0);
            EvSubtest ["TestX"; "F"];
            EvSkipf ["TestX"; "F"] (skipFeatureMsg "F")]
           (boot (env0 onlyG suite)))
  ∧ exists o s' evs,
      Test e1 TestX F (boot (env0 onlyG suite)) = (o, s')
      ∧ journal s'
        = ([EvRunAction (act roleBefore bump) (Some 0);
            EvSubtest ["TestX"; "F"];
            EvSkipf ["TestX"; "F"] (skipFeatureMsg "F");
            EvRunAction (act roleAfter bump) (Some 1)] ++ evs)%list.
Proof.
  destruct (skipped_feature_keeps_context (H := harness) e1 (Some 9) TestX F
              (boot (env0 onlyG suite)) (env0 onlyG suite) onlyG eq_refl eq_refl)
    as [Hexec HTest].
  split; [exact (Hexec (only "G") eq_refl eq_refl)|].
  destruct (HTest [EvRunAction (act roleBefore bump) (Some 0)] (Some 1) 1 (only "G")
              (ex_intro _ 0 eq_refl) eq_refl eq_refl eq_refl) as (Hrun & _ & _ & Hfirst).
  split; [exact Hrun|].
  exact (Hfirst (act roleAfter bump) [] eq_refl).
Defined.

(** Section 8 of the specification, on the small suite: N functions that
    each add one to the context, run as one action from 0, end with N. *)
Lemma run_threads_context (n : nat) (c : nat) (cf : option filters) (w : nat) :
  run {| role := roleSetup; funcs := replicate n bump |} (Some c) cf w
  = ((Some (n + c), None), n + w).
Proof.
  unfold run. simpl funcs. revert c w. induction n as [|n IH]; intros c w; simpl; [done|].
  rewrite IH. repeat f_equal; lia.
Qed.

(** Section 8, end to end, with a test suite that is one call of Test: the
    Setup action runs once before the feature, the three steps of the
    feature thread the context, the Finish action runs once after it. *)
Example end_to_end :
  let s0 := boot (env0 unfiltered [act roleSetup bump; act roleFinish bump]) in
  let F3 := {| Feature_Name := "F";
               Feature_Steps := [step "up" LevelSetup; step "check" LevelAssess;
                                 step "down" LevelTeardown] |} in
  let m := {| mRun := fun s => (0%Z, (Test e1 TestX F3 s).2) |} in
  (Run e1 m s0).1 = Done 0%Z
  ∧ ctx <$> (envs (Run e1 m s0).2 !! e1) = Some (Some 5)
  ∧ journal (Run e1 m s0).2
    = [EvRunAction (act roleSetup bump) (Some 0);
       EvMRun;
       EvSubtest ["TestX"; "F"];
       EvStep ["TestX"; "F"] (step "up" LevelSetup) (Some 1);
       EvSubtest ["TestX"; "F"; "check"];
       EvStep ["TestX"; "F"; "check"] (step "check" LevelAssess) (Some 2);
       EvStep ["TestX"; "F"] (step "down" LevelTeardown) (Some 3);
       EvRunAction (act roleFinish bump) (Some 4)].
Proof. repeat split. Qed.

End Witnesses.

(** * Further properties *)

Section MoreFacts.

Context `{Harness}.

Ltac same_state :=
  apply machine_eq; simpl; rewrite <- ?app_assoc, ?insert_insert_eq; done.

(** ** Constructors *)

(** X1. NewWithContext checks the context first and the configuration
    second: with a nil context the error is "context is nil" whatever the
    configuration, with a context and a nil configuration it is
    "environment config is nil", and in both cases no environment is made.
    Otherwise the new environment, at an address that was free, has the
    given context and configuration and no action: every retrieval on it
    returns the empty list. *)
Theorem NewWithContext_checks (c : Ctx) (cf : option Config) (s : machine) :
  (c = None -> NewWithContext c cf s = (Done (inr "context is nil"), s))
  ∧ (is_Some c -> cf = None ->
       NewWithContext c cf s = (Done (inr "environment config is nil"), s))
  ∧ (is_Some c -> is_Some cf ->
       exists e,
         NewWithContext c cf s
           = (Done (inl e),
              setEnvs (<[e := {| ctx := c; cfg := cf; actions := [] |}]> (envs s)) s)
         ∧ envs s !! e = None
         ∧ forall r, retrieve r e
               (setEnvs (<[e := {| ctx := c; cfg := cf; actions := [] |}]> (envs s)) s)
             = (Done [],
                setEnvs (<[e := {| ctx := c; cfg := cf; actions := [] |}]> (envs s)) s)).
Proof.
  split; [by intros ->|]. split; [by intros [v ->] ->|].
  intros [v ->] [p ->].
  destruct (alloc_spec {| ctx := Some v; cfg := Some p; actions := [] |} s) as (e & Ha & Hf).
  exists e. split; [|split; [done|]].
  - unfold NewWithContext, bind. by rewrite Ha.
  - intros r. by rewrite (retrieve_spec r e _ _ (lookup_insert_eq _ _ _)).
Qed.

(** X2. New and NewWithConfig always return: the new environment is at an
    address that was free, carries the background context and has no action.
    Its configuration is the one [envconf.New] made, which NewWithConfig
    replaces by its argument without checking it: a nil configuration is
    stored as it is. *)
Theorem New_makes_an_empty_environment (s : machine) :
  let '(p, w) := envconf_New (world s) in
  (exists e,
      New s = (Done e, setEnvs (<[e := {| ctx := Some Background; cfg := Some p; actions := [] |}]>
                                  (envs s)) (setWorld w s))
      ∧ envs s !! e = None)
  ∧ (forall cf, exists e,
      NewWithConfig cf s
        = (Done e, setEnvs (<[e := {| ctx := Some Background; cfg := cf; actions := [] |}]>
                              (envs s)) (setWorld w s))
      ∧ envs s !! e = None).
Proof.
  destruct (envconf_New (world s)) as [p w] eqn:Hn.
  destruct (alloc_spec {| ctx := Some Background; cfg := Some p; actions := [] |} (setWorld w s))
    as (e & Ha & Hf).
  assert (Hnew : newTestEnv s
                 = (Done e, setEnvs (<[e := {| ctx := Some Background; cfg := Some p;
                                               actions := [] |}]> (envs s)) (setWorld w s))).
  { unfold newTestEnv, bind, call. rewrite Hn. exact Ha. }
  split.
  - exists e. by split.
  - intros cf. exists e. split; [|done].
    unfold NewWithConfig, bind. rewrite Hnew. unfold deref. simpl.
    rewrite lookup_insert_eq. unfold assign, ret. simpl. f_equal. same_state.
Qed.

(** ** Chains of registrations *)

Lemma registered_cons_nonempty r fs regs :
  fs ≠ [] -> registered ((r, fs) :: regs) = {| role := r; funcs := fs |} :: registered regs.
Proof.
  intros Hfs. unfold registered. rewrite filter_cons. simpl.
  destruct (decide (length fs ≠ 0)) as [_|Hn]; [done|].
  destruct fs; [done|]. simpl in Hn. lia.
Qed.

Lemma registered_cons_empty r regs : registered ((r, []) :: regs) = registered regs.
Proof. unfold registered. rewrite filter_cons. simpl. by destruct (decide (0 ≠ 0)). Qed.

Lemma chain_spec (e : loc) (regs : list (actionRole * list Func)) (s : machine) (env : testEnv) :
  envs s !! e = Some env ->
  chain e regs s
  = (Done e, setEnvs (<[e := withActions (actions env ++ registered regs) env]> (envs s)) s).
Proof.
  revert s env. induction regs as [|[r fs] regs IH]; intros s env He; simpl.
  - unfold ret. f_equal. apply machine_eq; simpl; try done.
    symmetry. apply insert_id. rewrite He. f_equal. destruct env. unfold withActions. simpl.
    by rewrite app_nil_r.
  - unfold bind. destruct fs as [|f fs].
    + rewrite register_nil. rewrite registered_cons_empty. by apply IH.
    + rewrite (register_spec r e (f :: fs) s env He) by done.
      rewrite (IH _ (withAction {| role := r; funcs := f :: fs |} env));
        [|apply lookup_insert_eq].
      rewrite registered_cons_nonempty by done.
      f_equal. apply machine_eq; simpl; try done.
      rewrite insert_insert_eq. unfold withActions. simpl. by rewrite <- app_assoc.
Qed.

(** X3. A chain of registrations on an environment returns that
    environment and appends to its action list one action for each
    registration that has a function, in the order of the chain; the
    registrations without function leave no trace.  Every retrieval then
    returns what it returned before followed by the new actions of its role,
    and the other environments are as before. *)
Theorem chained_registrations (e : loc) (regs : list (actionRole * list Func))
    (s : machine) (env : testEnv) :
  envs s !! e = Some env ->
  let s' := setEnvs (<[e := withActions (actions env ++ registered regs) env]> (envs s)) s in
  chain e regs s = (Done e, s')
  ∧ (length (registered regs) <= length regs)%nat
  ∧ (forall r, retrieve r e s'
       = (Done (byRole r (actions env) ++ byRole r (registered regs))%list, s'))
  ∧ (forall e0, e0 ≠ e -> envs s' !! e0 = envs s !! e0).
Proof.
  intros He s'. split; [by apply chain_spec|]. split.
  - unfold registered. rewrite length_map. apply length_filter.
  - split.
    + intros r. rewrite (retrieve_spec r e s' _ (lookup_insert_eq _ _ _)). simpl.
      by rewrite byRole_app.
    + intros e0 Hne. simpl. by rewrite lookup_insert_ne.
Qed.

(** ** The four retrievals *)

Lemma byRole_partition (l : list action) :
  (byRole roleSetup l ++ byRole roleBefore l ++ byRole roleAfter l ++ byRole roleFinish l)%list
  ≡ₚ l.
Proof.
  induction l as [|a l IH]; [done|].
  unfold byRole in *. rewrite !filter_cons.
  destruct (role a) eqn:Hr; simpl;
    repeat (match goal with |- context [decide ?P] => destruct (decide P); try done end);
    simpl.
  - by constructor.
  - rewrite <- Permutation_middle. by constructor.
  - rewrite app_assoc, <- Permutation_middle, <- app_assoc. by constructor.
  - rewrite !app_assoc, <- Permutation_middle, <- !app_assoc. by constructor.
Qed.

(** X4. The four retrievals leave the machine as it is, and share out the
    action list: each returns a sublist of it, and together they return every
    action once. *)
Theorem retrievals_partition_the_actions (e : loc) (s : machine) (env : testEnv) :
  envs s !! e = Some env ->
  exists l1 l2 l3 l4,
    GetSetupActions e s = (Done l1, s)
    ∧ GetBeforeActions e s = (Done l2, s)
    ∧ GetAfterActions e s = (Done l3, s)
    ∧ GetFinishActions e s = (Done l4, s)
    ∧ (l1 ++ l2 ++ l3 ++ l4)%list ≡ₚ actions env
    ∧ sublist l1 (actions env) ∧ sublist l2 (actions env)
    ∧ sublist l3 (actions env) ∧ sublist l4 (actions env).
Proof.
  intros He.
  exists (byRole roleSetup (actions env)), (byRole roleBefore (actions env)),
    (byRole roleAfter (actions env)), (byRole roleFinish (actions env)).
  repeat split; try (by apply getActionsByRole_spec); try apply sublist_filter.
  apply byRole_partition.
Qed.


(** ** What a feature reports *)

Lemma direct_reported ft t cf l c w evs c' w' :
  (ft `prefix_of` t) ->
  direct t cf l c w = (evs, c', w') -> Forall (reported ft) evs.
Proof.
  intros Hp. revert c w evs c' w'.
  induction l as [|st l IH]; intros c w evs c' w' Hd; simpl in *.
  - injection Hd as <- <- <-. constructor.
  - destruct (Step_Func st c t cf w) as [c1 w1].
    destruct (direct t cf l c1 w1) as [[evs1 c2] w2] eqn:Hrest.
    injection Hd as <- <- <-. constructor; [done | by eapply IH].
Qed.

Lemma scoped_reported ft p l c w evs c' w' :
  scoped ft p l c w = (evs, c', w') -> Forall (reported ft) evs.
Proof.
  revert c w evs c' w'.
  induction l as [|st l IH]; intros c w evs c' w' Hd; simpl in *.
  - injection Hd as <- <- <-. constructor.
  - assert (Hp : ft `prefix_of` (ft ++ [Step_Name st])%list) by apply prefix_app_r, reflexivity.
    destruct (passes AssessmentRegex p (Step_Name st) w).
    + destruct (Step_Func st c (ft ++ [Step_Name st])%list (Some p) w) as [c1 w1].
      destruct (scoped ft p l c1 w1) as [[evs1 c2] w2] eqn:Hrest.
      injection Hd as <- <- <-. repeat constructor; try done. by eapply IH.
    + destruct (scoped ft p l c w) as [[evs1 c2] w2] eqn:Hrest.
      injection Hd as <- <- <-. repeat constructor; try done. by eapply IH.
Qed.

Lemma reported_quiet ft evs :
  Forall (reported ft) evs ->
  actionsRun evs = [] ∧ (EvMRun ∉ evs)
  ∧ (forall t msg, EvFatalf t msg ∉ evs) ∧ (forall msg, EvLogFatal msg ∉ evs).
Proof.
  induction 1 as [|ev evs Hev _ (IH1 & IH2 & IH3 & IH4)].
  - repeat split; intros; apply not_elem_of_nil.
  - destruct ev; simpl in Hev; try done;
      (split; [done|]; split; [|split]; intros; apply not_elem_of_cons; split; try done;
       auto).
Qed.

Lemma execFeature_journal e c t f s env p :
  envs s !! e = Some env -> cfg env = Some p ->
  exists c' w' evs,
    execFeature e c t f s = (Done c', setWorld w' (logged evs s))
    ∧ Forall (reported (t ++ [Feature_Name f])%list) evs.
Proof.
  intros He Hp. set (ft := (t ++ [Feature_Name f])%list).
  destruct (passes FeatureRegex p (Feature_Name f) (world s)) eqn:Hpass.
  - destruct (direct_total ft (Some p)
                (GetStepsByLevel (Feature_Steps f) LevelSetup) c (world s))
      as (evS & c1 & w1 & HS).
    destruct (scoped_total ft p
                (GetStepsByLevel (Feature_Steps f) LevelAssess) c1 w1)
      as (evA & c2 & w2 & HA).
    destruct (direct_total ft (Some p)
                (GetStepsByLevel (Feature_Steps f) LevelTeardown) c2 w2)
      as (evT & c3 & w3 & HT).
    exists c3, w3, (EvSubtest ft :: evS ++ evA ++ evT)%list. split.
    + by apply (execFeature_runs e c t f s env p evS c1 w1 evA c2 w2 evT c3 w3).
    + constructor; [simpl; reflexivity|]. apply Forall_app. split.
      * by eapply direct_reported.
      * apply Forall_app. split; [by eapply scoped_reported | by eapply direct_reported].
  - exists c, (world s), [EvSubtest ft; EvSkipf ft (skipFeatureMsg (Feature_Name f))]. split.
    + by rewrite (execFeature_skipped e c t f s env p).
    + repeat constructor; simpl; reflexivity.
Qed.

(** X5. In an environment that has a configuration, execFeature returns
    and leaves the environments alone.  All it journals are sub-scopes
    opened, steps called and skips, in the scope of the feature or under it:
    it runs no action, reports no failure, and never skips the scope it was
    called with. *)
Theorem execFeature_reports_under_its_scope (e : loc) (c : Ctx) (t : T) (f : Feature)
    (s : machine) (env : testEnv) (p : Config) :
  envs s !! e = Some env -> cfg env = Some p ->
  exists c' s' evs,
    execFeature e c t f s = (Done c', s')
    ∧ envs s' = envs s
    ∧ journal s' = (journal s ++ evs)%list
    ∧ Forall (reported (t ++ [Feature_Name f])%list) evs
    ∧ actionsRun evs = []
    ∧ (forall t0 msg, EvFatalf t0 msg ∉ evs)
    ∧ (forall msg, EvSkipf t msg ∉ evs).
Proof.
  intros He Hp.
  destruct (execFeature_journal e c t f s env p He Hp) as (c' & w' & evs & Hx & Hrep).
  destruct (reported_quiet _ _ Hrep) as (Hact & _ & Hfatal & _).
  exists c', (setWorld w' (logged evs s)), evs. repeat split; try done.
  intros msg Hin. rewrite Forall_forall in Hrep. apply Hrep in Hin. simpl in Hin.
  apply prefix_length in Hin. rewrite length_app in Hin. simpl in Hin. lia.
Qed.

(** ** Test, whatever its outcome *)

Lemma failFast_outcome e t (mk : string -> string) acts s env :
  envs s !! e = Some env ->
  exists o c w evs,
    forEach acts (runInto e (fun err => T_Fatalf t (mk err))) s = (o, settled e env c w evs s)
    ∧ (o = Done tt ∨ o = Goexit)
    ∧ (actionsRun evs `prefix_of` acts).
Proof.
  intros He.
  destruct (succeeds_or_fails (cfg env) acts (ctx env) (world s))
    as [(evs & c' & w' & Hs)
       |(pre & b & post & evs & c1 & w1 & c2 & msg & w2 & -> & Hs & Hb)].
  - exists (Done tt), c', w', evs.
    destruct (succeeds_journal _ _ _ _ _ _ _ Hs) as (Ha & _).
    split; [by apply forEach_succeeds|]. split; [by left|]. by rewrite Ha.
  - exists Goexit, c2, w2, (evs ++ [EvRunAction b c1; EvFatalf t (mk msg)])%list.
    destruct (succeeds_journal _ _ _ _ _ _ _ Hs) as (Ha & _).
    split; [|split; [by right|]].
    + rewrite (forEach_fails e _ pre b post s env evs c1 w1 c2 msg w2 He Hs Hb).
      unfold T_Fatalf, bind, emit. simpl. f_equal. same_state.
    + rewrite actionsRun_app, Ha. simpl. exists post. by rewrite <- app_assoc.
Qed.

Lemma prefix_byRole r l (evs : list action) :
  evs `prefix_of` byRole r l -> Forall (fun b => role b = r) evs.
Proof.
  intros [k Hk]. pose proof (byRole_role r l) as Hall. rewrite Hk in Hall.
  by apply Forall_app in Hall as [? _].
Qed.

Lemma afterPhase_outcome e t f s env :
  envs s !! e = Some env ->
  exists o c w evs,
    afterPhase e t f s = (o, settled e env c w evs s)
    ∧ (o = Done tt ∨ o = Goexit)
    ∧ Forall (fun b => role b = roleAfter) (actionsRun evs).
Proof.
  intros He. unfold afterPhase, GetAfterActions. unfold bind at 1.
  rewrite (getActionsByRole_spec e roleAfter s env He).
  destruct (failFast_outcome e t
              (fun err => "AfterTest failure: " ++ Feature_Name f ++ ": " ++ err)
              (byRole roleAfter (actions env)) s env He) as (o & c & w & evs & Hr & Ho & Hp).
  exists o, c, w, evs. split; [exact Hr|]. split; [exact Ho|]. by eapply prefix_byRole.
Qed.

Lemma Test_outcome e t f s env :
  envs s !! e = Some env -> is_Some (ctx env) ->
  exists o c w evs,
    Test e t f s = (o, settled e env c w evs s)
    ∧ (o = Done tt ∨ o = Goexit ∨ o = Panic nilDereference)
    ∧ Forall (fun b => role b = roleBefore ∨ role b = roleAfter) (actionsRun evs).
Proof.
  intros He Hc.
  destruct (succeeds_or_fails (cfg env) (byRole roleBefore (actions env)) (ctx env) (world s))
    as [(evsB & cB & wB & Hs)
       |(pre & b & post & evs & c1 & w1 & c2 & msg & w2 & Hl & Hs & Hb)].
  - destruct (succeeds_journal _ _ _ _ _ _ _ Hs) as (HaB & _).
    assert (HB : Forall (fun b => role b = roleBefore ∨ role b = roleAfter) (actionsRun evsB)).
    { rewrite HaB. eapply Forall_impl; [apply byRole_role|]. by left. }
    rewrite (Test_after_befores e t f s env evsB cB wB He Hc Hs).
    destruct (cfg env) as [p|] eqn:Hp.
    + destruct (execFeature_journal e cB t f (settled e env cB wB evsB s) (withCtx cB env) p)
        as (cF & wF & evsF & Hx & Hrep); [apply settled_lookup|done|].
      rewrite Hx. destruct (reported_quiet _ _ Hrep) as (HaF & _).
      destruct (afterPhase_outcome e t f
                  (setEnvs (<[e := withCtx cF env]>
                              (envs (setWorld wF (logged evsF (settled e env cB wB evsB s)))))
                     (setWorld wF (logged evsF (settled e env cB wB evsB s))))
                  (withCtx cF env))
        as (o & c & w & evsA & Hr & Ho & HA); [apply lookup_insert_eq|].
      exists o, c, w, (evsB ++ evsF ++ evsA)%list. split; [|split].
      * rewrite Hr. f_equal. same_state.
      * destruct Ho as [->| ->]; auto.
      * rewrite !actionsRun_app, HaF. simpl. apply Forall_app. split; [done|].
        eapply Forall_impl; [exact HA|]. by right.
    + rewrite (execFeature_nil_cfg e cB t f _ (withCtx cB env));
        [|apply settled_lookup|done].
      exists (Panic nilDereference), cB, wB, (evsB ++ [EvSubtest (t ++ [Feature_Name f])%list])%list.
      split; [f_equal; same_state|]. split; [auto|].
      rewrite actionsRun_app. simpl. by rewrite app_nil_r.
  - destruct (succeeds_journal _ _ _ _ _ _ _ Hs) as (Ha & _).
    rewrite (Test_before_fails e t f s env pre b post evs c1 w1 c2 msg w2 He Hc Hl Hs Hb).
    eexists Goexit, c2, w2, _. split; [reflexivity|]. split; [auto|].
    rewrite actionsRun_app, Ha. simpl.
    pose proof (byRole_role roleBefore (actions env)) as Hall. rewrite Hl in Hall.
    apply Forall_app in Hall as [Hpre Hb']. apply Forall_cons in Hb' as [Hb' _].
    apply Forall_app. split.
    + eapply Forall_impl; [exact Hpre|]. by left.
    + apply Forall_singleton. by left.
Qed.

(** X6. Whatever the outcome of Test on an environment whose context is not
    nil (it returns, it ends its goroutine on a failure, or it panics on a
    nil configuration; it never exits the process), the environment keeps its
    configuration and its actions, only its context may have changed, the
    other environments are as before, and the actions that were run are
    Before and After actions. *)
Theorem Test_touches_only_the_context (e : loc) (t : T) (f : Feature) (s : machine)
    (env : testEnv) :
  envs s !! e = Some env -> is_Some (ctx env) ->
  exists o s' c evs,
    Test e t f s = (o, s')
    ∧ (o = Done tt ∨ o = Goexit ∨ o = Panic nilDereference)
    ∧ envs s' !! e = Some (withCtx c env)
    ∧ (forall e0, e0 ≠ e -> envs s' !! e0 = envs s !! e0)
    ∧ journal s' = (journal s ++ evs)%list
    ∧ Forall (fun b => role b = roleBefore ∨ role b = roleAfter) (actionsRun evs).
Proof.
  intros He Hc.
  destruct (Test_outcome e t f s env He Hc) as (o & c & w & evs & Hr & Ho & Hroles).
  exists o, (settled e env c w evs s), c, evs.
  split; [exact Hr|]. split; [exact Ho|]. split; [apply settled_lookup|].
  split; [|by split].
  intros e0 Hne. simpl. by rewrite lookup_insert_ne.
Qed.

(** X7. When nothing fails, Test runs all the Before actions, executes the
    feature from the context they end with, runs all the After actions from
    the context the feature returned, stores the context they end with in
    the environment, and returns.  Between the two batches the journal holds
    only the events of the feature. *)
Theorem Test_runs_before_feature_after (e : loc) (t : T) (f : Feature) (s : machine)
    (env : testEnv) evsB cB wB cF sF evsA cA wA :
  envs s !! e = Some env -> is_Some (ctx env) ->
  succeeds (cfg env) (byRole roleBefore (actions env)) (ctx env) (world s)
    = Some (evsB, cB, wB) ->
  execFeature e cB t f (settled e env cB wB evsB s) = (Done cF, sF) ->
  succeeds (cfg env) (byRole roleAfter (actions env)) cF (world sF) = Some (evsA, cA, wA) ->
  Test e t f s = (Done tt, settled e env cA wA evsA sF)
  ∧ exists evsF,
      journal sF = (journal s ++ evsB ++ evsF)%list
      ∧ Forall (reported (t ++ [Feature_Name f])%list) evsF
      ∧ actionsRun (evsB ++ evsF ++ evsA)
        = (byRole roleBefore (actions env) ++ byRole roleAfter (actions env))%list.
Proof.
  intros He Hc HB Hx HA.
  destruct (succeeds_journal _ _ _ _ _ _ _ HB) as (HaB & _).
  destruct (succeeds_journal _ _ _ _ _ _ _ HA) as (HaA & _).
  split.
  - rewrite (Test_after_befores e t f s env evsB cB wB He Hc HB), Hx.
    rewrite (afterPhase_succeeds e t f _ (withCtx cF env) evsA cA wA);
      [|apply lookup_insert_eq|done].
    f_equal. same_state.
  - destruct (cfg env) as [p|] eqn:Hp.
    + destruct (execFeature_journal e cB t f (settled e env cB wB evsB s) (withCtx cB env) p)
        as (cF' & wF & evsF & Hx' & Hrep); [apply settled_lookup|done|].
      rewrite Hx' in Hx. injection Hx as <- <-.
      destruct (reported_quiet _ _ Hrep) as (HaF & _).
      exists evsF. split; [simpl; by rewrite <- app_assoc|]. split; [done|].
      by rewrite !actionsRun_app, HaB, HaF, HaA.
    + by rewrite (execFeature_nil_cfg e cB t f _ (withCtx cB env)) in Hx;
        [|apply settled_lookup|].
Qed.

(** ** A context that is nil *)

Lemma nil_context_panics e s env :
  envs s !! e = Some env -> ctx env = None ->
  (forall t f, Test e t f s = (Panic "context not set", s))
  ∧ (forall m, Run e m s = (Panic "context not set", s)).
Proof.
  intros He Hc. split; intros; [unfold Test | unfold Run];
    unfold bind, deref; by rewrite He, Hc.
Qed.

(** X8. Test stores the context it ends with without looking at it: when
    the feature returns a nil context and the After actions keep it, Test
    returns normally, and every later Test or Run on the environment panics
    at its first check, leaving the machine as it is. *)
Theorem Test_can_leave_a_nil_context (e : loc) (t : T) (f : Feature) (s : machine)
    (env : testEnv) evsB cB wB sF evsA wA :
  envs s !! e = Some env -> is_Some (ctx env) ->
  succeeds (cfg env) (byRole roleBefore (actions env)) (ctx env) (world s)
    = Some (evsB, cB, wB) ->
  execFeature e cB t f (settled e env cB wB evsB s) = (Done None, sF) ->
  succeeds (cfg env) (byRole roleAfter (actions env)) None (world sF) = Some (evsA, None, wA) ->
  let s' := settled e env None wA evsA sF in
  Test e t f s = (Done tt, s')
  ∧ (forall t' f', Test e t' f' s' = (Panic "context not set", s'))
  ∧ (forall m, Run e m s' = (Panic "context not set", s')).
Proof.
  intros He Hc HB Hx HA s'.
  split.
  - rewrite (Test_after_befores e t f s env evsB cB wB He Hc HB), Hx.
    rewrite (afterPhase_succeeds e t f _ (withCtx None env) evsA None wA);
      [|apply lookup_insert_eq|done].
    f_equal. same_state.
  - apply (nil_context_panics e s' (withCtx None env)); [apply settled_lookup | done].
Qed.

(** ** Environments side by side *)

(** X9. An environment and the one derived from it by WithContext do not
    share their context: Test on the derived environment leaves the original
    as it was, and Test on the original changes at most the original's
    context and leaves the derived one as WithContext made it. *)
Theorem Test_on_a_derived_environment (e : loc) (c : Ctx) (s : machine) (env : testEnv) :
  envs s !! e = Some env -> is_Some c ->
  exists e' s',
    WithContext e c s = (Done e', s')
    ∧ (forall t f, envs (Test e' t f s').2 !! e = Some env)
    ∧ (forall t f, is_Some (ctx env) ->
         exists c', envs (Test e t f s').2 !! e'
                    = Some {| ctx := c; cfg := cfg env; actions := actions env |}
                  ∧ envs (Test e t f s').2 !! e = Some (withCtx c' env)).
Proof.
  intros He Hc.
  destruct (WithContext_spec e c s env He Hc) as (e' & Hw & Hfresh).
  assert (Hne : e' ≠ e) by (intros ->; congruence).
  eexists e', _. split; [exact Hw|]. split.
  - intros t f.
    destruct (Test_outcome e' t f
                (setEnvs (<[e' := {| ctx := c; cfg := cfg env; actions := actions env |}]> (envs s)) s)
                {| ctx := c; cfg := cfg env; actions := actions env |})
      as (o & c' & w & evs & Hr & _); [apply lookup_insert_eq|done|].
    rewrite Hr. simpl. rewrite lookup_insert_ne by done. by rewrite lookup_insert_ne.
  - intros t f Hctx.
    destruct (Test_outcome e t f
                (setEnvs (<[e' := {| ctx := c; cfg := cfg env; actions := actions env |}]> (envs s)) s)
                env)
      as (o & c' & w & evs & Hr & _); [simpl; by rewrite lookup_insert_ne|done|].
    exists c'. rewrite Hr. simpl. split.
    + rewrite lookup_insert_ne by done. apply lookup_insert_eq.
    + apply lookup_insert_eq.
Qed.

(** ** Run with nothing registered *)

(** X10. On an environment that has no Setup action, and no Finish action
    once the test suite has run, Run does nothing but run the test suite: it
    returns its exit code and leaves the machine as the suite left it. *)
Theorem Run_without_actions (e : loc) (m : testingM) (s : machine) (env : testEnv)
    code s2 env2 :
  envs s !! e = Some env -> is_Some (ctx env) ->
  byRole roleSetup (actions env) = [] ->
  mRun m (logged [EvMRun] s) = (code, s2) ->
  envs s2 !! e = Some env2 ->
  byRole roleFinish (actions env2) = [] ->
  Run e m s = (Done code, s2).
Proof.
  intros He Hc Hsetup Hm He2 Hfin.
  rewrite (Run_after_setups e m s env [] (ctx env) (world s) He Hc);
    [|by rewrite Hsetup].
  rewrite settled_id by done. rewrite Hm, He2, Hfin. simpl.
  by rewrite settled_id.
Qed.


(** ** Run around a call of Test *)

(** X11. When the setups have succeeded and the test suite comes down to a
    call of Test on the environment, whatever the outcome of that call, the
    Finish actions that Run then runs are those the environment had at the
    start, all of them, and the first one starts from the context Test left
    in the environment. *)
Theorem Run_hands_the_context_of_Test_to_Finish (e : loc) (m : testingM) (t : T)
    (f : Feature) (s : machine) (env : testEnv) evsS cS wS code o s2 :
  envs s !! e = Some env -> is_Some (ctx env) ->
  succeeds (cfg env) (byRole roleSetup (actions env)) (ctx env) (world s)
    = Some (evsS, cS, wS) ->
  Test e t f (logged [EvMRun] (settled e env cS wS evsS s)) = (o, s2) ->
  mRun m (logged [EvMRun] (settled e env cS wS evsS s)) = (code, s2) ->
  exists c,
    envs s2 !! e = Some (withCtx c env)
    ∧ forall evsF cF wF,
        bestEffort (cfg env) (byRole roleFinish (actions env)) c (world s2) = (evsF, cF, wF) ->
        Run e m s = (Done code, settled e env cF wF evsF s2)
        ∧ actionsRun evsF = byRole roleFinish (actions env).
Proof.
  intros He Hc HS HT Hm.
  assert (Hleft : exists c, envs s2 !! e = Some (withCtx c env)).
  { destruct cS as [v|].
    - destruct (Test_outcome e t f (logged [EvMRun] (settled e env (Some v) wS evsS s))
                  (withCtx (Some v) env))
        as (o' & c & w & evs & Hr & _); [simpl; apply lookup_insert_eq|by eexists|].
      rewrite Hr in HT. injection HT as <- <-. exists c. apply lookup_insert_eq.
    - destruct (nil_context_panics e (logged [EvMRun] (settled e env None wS evsS s))
                  (withCtx None env)) as [Hpanic _]; [simpl; apply lookup_insert_eq|done|].
      rewrite Hpanic in HT. injection HT as <- <-. exists None. simpl. apply lookup_insert_eq. }
  destruct Hleft as [c He2]. exists c. split; [exact He2|].
  intros evsF cF wF Hb. split; [|by eapply bestEffort_actionsRun].
  rewrite (Run_after_setups e m s env evsS cS wS He Hc HS), Hm, He2.
  simpl in Hb |- *. by rewrite Hb.
Qed.

End MoreFacts.

(** * The further properties on the small suite *)

Section MoreWitnesses.

Import Demo Samples.
#[local] Existing Instance Demo.harness.

Local Abbreviation e1 := (1%positive : loc).
Local Abbreviation TestX := (["TestX"] : T).

Lemma NewWithContext_checks_witness :
  NewWithContext (H := harness) None (Some unfiltered) empty
  = (Done (inr "context is nil"), empty)
  ∧ NewWithContext (H := harness) (Some 3) None empty
    = (Done (inr "environment config is nil"), empty)
  ∧ exists e, (NewWithContext (H := harness) (Some 3) (Some unfiltered) empty).1
              = Done (inl e).
Proof.
  destruct (NewWithContext_checks (H := harness) None (Some unfiltered) empty)
    as (Hnil & _ & _).
  destruct (NewWithContext_checks (H := harness) (Some 3) None empty) as (_ & Hcfg & _).
  destruct (NewWithContext_checks (H := harness) (Some 3) (Some unfiltered) empty)
    as (_ & _ & Hok).
  split; [exact (Hnil eq_refl)|].
  split; [exact (Hcfg (ex_intro _ 3 eq_refl) eq_refl)|].
  destruct (Hok (ex_intro _ 3 eq_refl) (ex_intro _ unfiltered eq_refl)) as (e & Hrun & _).
  exists e. by rewrite Hrun.
Defined.

Lemma chained_registrations_witness :
  chain e1 regs (boot (env0 unfiltered []))
  = (Done e1,
     setEnvs (<[e1 := env0 unfiltered
                        [{| role := roleSetup; funcs := [bump] |};
                         {| role := roleAfter; funcs := [bump; boom] |};
                         {| role := roleSetup; funcs := [boom] |}]]>
                (envs (boot (env0 unfiltered [])))) (boot (env0 unfiltered []))).
Proof.
  apply (chained_registrations (H := harness) e1 regs (boot (env0 unfiltered []))
           (env0 unfiltered [])).
  reflexivity.
Defined.

Lemma retrievals_partition_the_actions_witness :
  exists l1 l2 l3 l4,
    GetSetupActions e1 (boot (env0 unfiltered suite)) = (Done l1, boot (env0 unfiltered suite))
    ∧ GetFinishActions e1 (boot (env0 unfiltered suite))
      = (Done l4, boot (env0 unfiltered suite))
    ∧ (l1 ++ l2 ++ l3 ++ l4)%list ≡ₚ suite.
Proof.
  destruct (retrievals_partition_the_actions (H := harness) e1 (boot (env0 unfiltered suite))
              (env0 unfiltered suite) eq_refl)
    as (l1 & l2 & l3 & l4 & H1 & _ & _ & H4 & Hperm & _).
  exists l1, l2, l3, l4. split; [exact H1|]. split; [exact H4 | exact Hperm].
Defined.

Lemma execFeature_reports_under_its_scope_witness :
  exists c' s' evs,
    execFeature e1 (Some 0) TestX F (boot (env0 onlyB [])) = (Done c', s')
    ∧ Forall (reported ["TestX"; "F"]) evs
    ∧ journal s' = evs.
Proof.
  destruct (execFeature_reports_under_its_scope (H := harness) e1 (Some 0) TestX F
              (boot (env0 onlyB [])) (env0 onlyB []) onlyB eq_refl eq_refl)
    as (c' & s' & evs & Hrun & _ & Hj & Hrep & _).
  exists c', s', evs. split; [exact Hrun|]. split; [exact Hrep | exact Hj].
Defined.

Lemma Test_touches_only_the_context_witness :
  exists o s' c,
    Test e1 TestX F (boot (env0 unfiltered (failing roleAfter))) = (o, s')
    ∧ envs s' !! e1 = Some (withCtx c (env0 unfiltered (failing roleAfter))).
Proof.
  destruct (Test_touches_only_the_context (H := harness) e1 TestX F
              (boot (env0 unfiltered (failing roleAfter)))
              (env0 unfiltered (failing roleAfter)) eq_refl (ex_intro _ 0 eq_refl))
    as (o & s' & c & evs & Hrun & _ & He & _).
  exists o, s', c. split; [exact Hrun | exact He].
Defined.

Lemma Test_runs_before_feature_after_witness :
  (Test e1 TestX F (boot (env0 onlyB suite))).1 = Done tt
  ∧ ctx <$> (envs (Test e1 TestX F (boot (env0 onlyB suite))).2 !! e1) = Some (Some 5).
Proof.
  destruct (Test_runs_before_feature_after (H := harness) e1 TestX F
              (boot (env0 onlyB suite)) (env0 onlyB suite)
              [EvRunAction (act roleBefore bump) (Some 0)] (Some 1) 1
              (Some 4)
              (execFeature (H := harness) e1 (Some 1) TestX F
                 (settled e1 (env0 onlyB suite) (Some 1) 1
                    [EvRunAction (act roleBefore bump) (Some 0)]
                    (boot (env0 onlyB suite)))).2
              [EvRunAction (act roleAfter bump) (Some 4)] (Some 5) 5
              eq_refl (ex_intro _ 0 eq_refl) eq_refl eq_refl eq_refl)
    as [Hrun _].
  rewrite Hrun. split; reflexivity.
Defined.

Lemma Test_can_leave_a_nil_context_witness :
  (Test e1 TestX Flose (boot (env0 unfiltered []))).1 = Done tt
  ∧ (Test e1 TestX F (Test e1 TestX Flose (boot (env0 unfiltered []))).2).1
    = Panic "context not set".
Proof.
  destruct (Test_can_leave_a_nil_context (H := harness) e1 TestX Flose
              (boot (env0 unfiltered [])) (env0 unfiltered [])
              [] (Some 0) 0
              (execFeature (H := harness) e1 (Some 0) TestX Flose
                 (settled e1 (env0 unfiltered []) (Some 0) 0 [] (boot (env0 unfiltered [])))).2
              [] 2
              eq_refl (ex_intro _ 0 eq_refl) eq_refl eq_refl eq_refl)
    as (Hrun & Hnext & _).
  rewrite Hrun. split; [reflexivity|]. simpl. by rewrite Hnext.
Defined.

Lemma Test_on_a_derived_environment_witness :
  exists e' s',
    WithContext e1 (Some 5) (boot (env0 unfiltered suite)) = (Done e', s')
    ∧ envs (Test e' TestX F s').2 !! e1 = Some (env0 unfiltered suite).
Proof.
  destruct (Test_on_a_derived_environment (H := harness) e1 (Some 5)
              (boot (env0 unfiltered suite)) (env0 unfiltered suite)
              eq_refl (ex_intro _ 5 eq_refl))
    as (e' & s' & Hrun & Hkeep & _).
  exists e', s'. split; [exact Hrun | exact (Hkeep TestX F)].
Defined.

Lemma Run_without_actions_witness :
  Run e1 m0 (boot (env0 unfiltered [act roleBefore bump]))
  = (Done 7%Z, logged [EvMRun] (boot (env0 unfiltered [act roleBefore bump]))).
Proof.
  apply (Run_without_actions (H := harness) e1 m0
           (boot (env0 unfiltered [act roleBefore bump]))
           (env0 unfiltered [act roleBefore bump]) 7%Z
           (logged [EvMRun] (boot (env0 unfiltered [act roleBefore bump])))
           (env0 unfiltered [act roleBefore bump]));
    try reflexivity.
  by eexists.
Defined.

Lemma Run_hands_the_context_of_Test_to_Finish_witness :
  (Run e1 oneTest (boot (env0 onlyB suite))).1 = Done 0%Z
  ∧ ctx <$> (envs (Run e1 oneTest (boot (env0 onlyB suite))).2 !! e1) = Some (Some 7).
Proof.
  destruct (Run_hands_the_context_of_Test_to_Finish (H := harness) e1 oneTest TestX F
              (boot (env0 onlyB suite)) (env0 onlyB suite)
              [EvRunAction (act roleSetup bump) (Some 0)] (Some 1) 1 0%Z (Done tt)
              (Test (H := harness) e1 TestX F
                 (logged [EvMRun]
                    (settled e1 (env0 onlyB suite) (Some 1) 1
                       [EvRunAction (act roleSetup bump) (Some 0)]
                       (boot (env0 onlyB suite))))).2
              eq_refl (ex_intro _ 0 eq_refl) eq_refl eq_refl eq_refl)
    as (c & He & Hfin).
  vm_compute in He. injection He as <-.
  destruct (Hfin [EvRunAction (act roleFinish boom) (Some 6);
                  EvLogPrintln "boom";
                  EvRunAction (act roleFinish bump) (Some 6)] (Some 7) 107 eq_refl)
    as [Hrun _].
  rewrite Hrun. split; reflexivity.
Defined.

End MoreWitnesses.
